(** * Outreach dashboard: prospect parser, prompt codec, template store,
      send route and the two automation controllers of [app.py].

    Text is modelled as [string], one [ascii] per code point, so the
    development covers text whose code points are below 256.  The
    character classes of Python ([str.isspace], [str.splitlines],
    [str.lower]) and of JavaScript ([String.prototype.trim], the regular
    expression classes [\s] and [.]) are written out for that range. *)

From stdpp Require Import gmap strings list functions pretty.
From Stdlib Require Import Ascii String ZArith Lia.

(** * The model *)

(** ** Strings *)

Module Str.

Definition code (c : ascii) : N := N_of_ascii c.

Definition mem (c : ascii) (s : string) : bool :=
  (fix go s := match s with
               | "" => false
               | String d s' => if Ascii.eqb c d then true else go s'
               end) s.

Definition is_empty (s : string) : bool :=
  match s with "" => true | _ => false end.

(** [s.lstrip()], [s.rstrip()] and [s.strip()] for a whitespace class. *)
Fixpoint lstrip (sp : ascii -> bool) (s : string) : string :=
  match s with
  | "" => ""
  | String c s' => if sp c then lstrip sp s' else s
  end.

Fixpoint rstrip (sp : ascii -> bool) (s : string) : string :=
  match s with
  | "" => ""
  | String c s' =>
      match rstrip sp s' with
      | "" => if sp c then "" else String c ""
      | r => String c r
      end
  end.

Definition strip (sp : ascii -> bool) (s : string) : string :=
  rstrip sp (lstrip sp s).

(** [strip_prefix p s] is the rest of [s] after [p] when [s] starts
    with [p]. *)
Fixpoint strip_prefix (p s : string) : option string :=
  match p with
  | "" => Some s
  | String a p' =>
      match s with
      | "" => None
      | String b s' => if Ascii.eqb a b then strip_prefix p' s' else None
      end
  end.

(** [cut sep s] splits [s] around the leftmost occurrence of [sep]. *)
Fixpoint cut (sep s : string) : option (string * string) :=
  match strip_prefix sep s with
  | Some rest => Some ("", rest)
  | None =>
      match s with
      | "" => None
      | String c s' =>
          match cut sep s' with
          | Some (a, b) => Some (String c a, b)
          | None => None
          end
      end
  end.

Definition includes (sep s : string) : bool :=
  match cut sep s with Some _ => true | None => false end.

Definition nth_or_empty (i : nat) (l : list string) : string :=
  match l !! i with Some x => x | None => "" end.

End Str.

(** ** Python text primitives *)

Module Py.

(** [str.isspace] on one character. *)
Definition isspace (c : ascii) : bool :=
  let n := Str.code c in
  ((9 <=? n) && (n <=? 13) || (28 <=? n) && (n <=? 32)
   || (n =? 133) || (n =? 160))%N.

Definition strip : string -> string := Str.strip isspace.

(** The line boundaries of [str.splitlines]. *)
Definition is_linebreak (c : ascii) : bool :=
  let n := Str.code c in
  ((10 <=? n) && (n <=? 13) || (28 <=? n) && (n <=? 30) || (n =? 133))%N.

Definition CR : ascii := "013"%char.
Definition LF : ascii := "010"%char.

(** [cur] is the current line, reversed; [after_cr] says that the
    previous character was a carriage return, so that a line feed now
    belongs to the same boundary. *)
Fixpoint splitlines_go (after_cr : bool) (cur s : string) : list string :=
  match s with
  | "" => if Str.is_empty cur then [] else [String.rev cur]
  | String c s' =>
      if after_cr && Ascii.eqb c LF then splitlines_go false cur s'
      else if is_linebreak c
           then String.rev cur :: splitlines_go (Ascii.eqb c CR) "" s'
           else splitlines_go false (String c cur) s'
  end.

Definition splitlines (s : string) : list string :=
  splitlines_go false "" s.

(** [s.split(sep, 1)] for a one-character separator. *)
Definition split1 (sep : ascii) (s : string) : list string :=
  match Str.cut (String sep "") s with
  | Some (a, b) => [a; b]
  | None => [s]
  end.

Definition lower_char (c : ascii) : ascii :=
  let n := Str.code c in
  if ((65 <=? n) && (n <=? 90)
      || (192 <=? n) && (n <=? 222) && negb (n =? 215))%N
  then ascii_of_N (n + 32) else c.

Fixpoint lower (s : string) : string :=
  match s with
  | "" => ""
  | String c s' => String (lower_char c) (lower s')
  end.

End Py.

(** ** Prospect list parser ([parse_prospect_lines]) *)

Record Prospect := { name : string; email : string }.

Global Instance Prospect_eq_dec : EqDecision Prospect.
Proof. solve_decision. Defined.

Module Parser.

(** The three-way branch on the shape of a stripped, non-blank line;
    the result is [(name, email)] before the final strip. *)
Definition classify (line : string) : string * string :=
  if Str.mem "<" line && Str.mem ">" line then
    let left := Py.strip (Str.nth_or_empty 0 (Py.split1 "<" line)) in
    let mid :=
      Py.strip
        (Str.nth_or_empty 0
           (Py.split1 ">" (Str.nth_or_empty 1 (Py.split1 "<" line)))) in
    (left, mid)
  else if Str.mem "," line then
    let parts := Py.strip <$> Py.split1 "," line in
    match parts with
    | [a; b] => (a, b)
    | _ => ("", "")
    end
  else ("", line).

(** What one raw line contributes before deduplication. *)
Definition candidate (raw : string) : option Prospect :=
  let line := Py.strip raw in
  if Str.is_empty line then None
  else
    let '(nm, em) := classify line in
    let em := Py.strip em in
    let nm := Py.strip nm in
    if negb (Str.mem "@" em) || negb (Str.mem "." em) then None
    else Some {| name := nm; email := em |}.

Definition key (p : Prospect) : string := Py.lower (email p).

(** One iteration of the [for raw in ...] loop over [(out, seen)]. *)
Definition step (st : list Prospect * gset string) (raw : string)
  : list Prospect * gset string :=
  match candidate raw with
  | None => st
  | Some p =>
      if decide (key p ∈ st.2) then st
      else (st.1 ++ [p], {[key p]} ∪ st.2)
  end.

Definition parse_prospect_lines (text : string) : list Prospect :=
  (foldl step ([], ∅) (Py.splitlines text)).1.

(** The valid lines of the text, in order, duplicates included. *)
Definition candidates (text : string) : list Prospect :=
  omap candidate (Py.splitlines text).

End Parser.

Definition NL : string := String "010"%char "".

(** *** The comma rule, as specified and as tested *)

(** The comma rule in the words of the specification: the two trimmed
    parts when both are non-empty, the whole line as the email otherwise. *)
Definition spec_comma_rule (line : string) : string * string :=
  match Py.strip <$> Py.split1 "," line with
  | [a; b] =>
      if Str.is_empty a || Str.is_empty b then ("", line) else (a, b)
  | _ => ("", line)
  end.

(** The validity test on a candidate email. *)
Definition looks_like_email (em : string) : bool :=
  Str.mem "@" em && Str.mem "." em.

(** ** JavaScript text primitives *)

Module Js.

(** White space and line terminators, the class of [trim] and of [\s]. *)
Definition is_space (c : ascii) : bool :=
  let n := Str.code c in
  ((9 <=? n) && (n <=? 13) || (n =? 32) || (n =? 160))%N.

(** The line terminators, which [.] does not match. *)
Definition is_line_terminator (c : ascii) : bool :=
  let n := Str.code c in ((n =? 10) || (n =? 13))%N.

Definition trim : string → string := Str.strip is_space.

(** [s.split(sep)] for a non-empty separator.  Every cut removes at least
    one character, so the length of the string is enough fuel. *)
Fixpoint split_fuel (fuel : nat) (sep s : string) : list string :=
  match fuel with
  | 0 => [s]
  | S fuel' =>
      match Str.cut sep s with
      | None => [s]
      | Some (a, b) => a :: split_fuel fuel' sep b
      end
  end.

Definition split (sep s : string) : list string :=
  split_fuel (String.length s) sep s.

(** [s.split(sep, limit)]: the first [limit] pieces of [s.split(sep)]. *)
Definition split_limit (sep : string) (limit : nat) (s : string)
  : list string :=
  take limit (split sep s).

(** Case folding of the flag [i] on the characters of an ASCII pattern. *)
Definition canonicalize (c : ascii) : ascii :=
  let n := Str.code c in
  if ((97 <=? n) && (n <=? 122))%N then ascii_of_N (n - 32) else c.

Fixpoint strip_prefix_ci (p s : string) : option string :=
  match p with
  | "" => Some s
  | String a p' =>
      match s with
      | "" => None
      | String b s' =>
          if Ascii.eqb (canonicalize a) (canonicalize b)
          then strip_prefix_ci p' s' else None
      end
  end.

(** The text after the leftmost occurrence of [p], case ignored. *)
Fixpoint find_ci (p s : string) : option string :=
  match strip_prefix_ci p s with
  | Some r => Some r
  | None =>
      match s with
      | "" => None
      | String _ s' => find_ci p s'
      end
  end.

(** The greedy capture group: every character up to the next line
    terminator. *)
Fixpoint take_line (s : string) : string :=
  match s with
  | "" => ""
  | String c s' => if is_line_terminator c then "" else String c (take_line s')
  end.

(** [s.match(re)] for the pattern made of the label, any white space and
    a capture group of any characters, under the flag [i]: the group of
    the leftmost match.  After the label the two starred parts always
    match, greedily. *)
Definition match_label (label s : string) : option string :=
  match find_ci label s with
  | Some r => Some (take_line (Str.lstrip is_space r))
  | None => None
  end.

End Js.

(** ** Prompt document codec *)

Module Codec.

Definition DIVIDER : string :=
  NL +:+ NL +:+ "--- CAMPAIGN PROMPT ---" +:+ NL.

Definition starter : string :=
  "Write a short, friendly outreach email offering a free 10 minute Facebook page review and 3 quick improvements. Keep it under 120 words. Close with a simple question asking if they want me to send the 3 improvements.".

(** The functions read and write the value of the prompt text area; here
    they take it and return it. *)
Definition getCampaignPrompt (full : string) : string :=
  if Str.includes DIVIDER full
  then Str.nth_or_empty 1 (Js.split_limit DIVIDER 2 full)
  else "".

Record Recipient := { r_email : string; r_name : string }.

Definition group_or_empty (m : option string) : string :=
  match m with Some g => Js.trim g | None => "" end.

Definition getRecipientFromPrompt (full : string) : Recipient :=
  {| r_email := group_or_empty (Js.match_label "Recipient Email:" full);
     r_name := group_or_empty (Js.match_label "Prospect Name:" full) |}.

Definition ensureCampaignPromptExists (full : string) : string :=
  if Str.includes DIVIDER full then full
  else "Recipient Email: " +:+ NL +:+ "Prospect Name: " +:+ DIVIDER +:+ starter.

Definition header (em nm : string) : string :=
  "Recipient Email: " +:+ em +:+ NL +:+ "Prospect Name: " +:+ nm.

Definition setRecipientLines (full em nm : string) : string :=
  let full := ensureCampaignPromptExists full in
  let campaign := Js.trim (getCampaignPrompt full) in
  header em nm +:+ DIVIDER +:+ campaign.

Definition setCampaignPromptOnly (full campaignText : string) : string :=
  let full := ensureCampaignPromptExists full in
  let r := getRecipientFromPrompt full in
  header (r_email r) (r_name r) +:+ DIVIDER +:+ Js.trim campaignText.

(** A text of one line: no line feed in it. *)
Definition single_line (s : string) : Prop := Str.mem Py.LF s = false.

End Codec.

(** ** Template store ([upsert_template]) *)

Module Templates.

(** A stored template is a JSON object; its values are strings here. *)
Abbreviation template := (gmap string string).

(** The content of the templates file: [None] when [load_templates]
    finds no file, or one that does not hold a list. *)
Abbreviation store := (option (list template)).

Definition load_templates (st : store) : list template :=
  match st with Some items => items | None => [] end.

Definition save_templates (items : list template) : store := Some items.

(** [t.get(k) or ""] *)
Definition get_or_empty (t : template) (k : string) : string :=
  match t !! k with Some v => v | None => "" end.

Definition name_matches (name : string) (t : template) : bool :=
  bool_decide
    (Py.lower (Py.strip (get_or_empty t "name")) = Py.lower name).

(** The [for t in items] loop with its [break]: the first match is
    overwritten in place; [None] stands for [found = False]. *)
Fixpoint update_first (name campaign_prompt : string) (items : list template)
  : option (list template) :=
  match items with
  | [] => None
  | t :: rest =>
      if name_matches name t
      then Some (<["prompt" := campaign_prompt]> (<["name" := name]> t) :: rest)
      else (t ::.) <$> update_first name campaign_prompt rest
  end.

Inductive outcome :=
| ValueError (msg : string)
| Returned (items : list template).

Definition upsert_template (name campaign_prompt : string) (st : store)
  : outcome * store :=
  let items := load_templates st in
  let name := Py.strip name in
  let campaign_prompt := Py.strip campaign_prompt in
  if Str.is_empty name then (ValueError "Template name is required", st)
  else if Str.is_empty campaign_prompt
  then (ValueError "Campaign prompt is required", st)
  else
    let items :=
      match update_first name campaign_prompt items with
      | Some items' => items'
      | None =>
          <["name" := name]> (<["prompt" := campaign_prompt]> ∅) :: items
      end in
    (Returned items, save_templates items).

(** The key under which two names are the same: stripped, lower case. *)
Definition name_key (t : template) : string :=
  Py.lower (Py.strip (get_or_empty t "name")).

Definition delete_template (name : string) (st : store)
  : list template * store :=
  let items := load_templates st in
  let name_l := Py.lower (Py.strip name) in
  let items2 := filter (λ t, name_key t ≠ name_l) items in
  (items2, save_templates items2).

(** The JSON body of a request to [/templates], a missing key read as
    the empty string. *)
Record TemplatesRequest := {
  t_action : string;
  t_name : string;
  t_prompt : string
}.

Inductive RouteReply :=
| RouteOk (items : list template)
| RouteNotOk (err : string).

(** [templates_route]; [None] is a body that [request.get_json] cannot
    read, which raises [json_error]. *)
Definition templates_route (json_error : string)
    (req : option TemplatesRequest) (st : store) : RouteReply * store :=
  match req with
  | None => (RouteNotOk json_error, st)
  | Some data =>
      let action := Py.lower (Py.strip (t_action data)) in
      if bool_decide (action = "save") then
        match upsert_template (t_name data) (t_prompt data) st with
        | (ValueError msg, st') => (RouteNotOk msg, st')
        | (Returned items, st') => (RouteOk items, st')
        end
      else if bool_decide (action = "delete") then
        let '(items, st') := delete_template (t_name data) st in
        (RouteOk items, st')
      else (RouteNotOk "Invalid action", st)
  end.

(** [templates.find(x => x.name === selected)] of the page. *)
Definition find_by_name (selected : string) (templates : list template)
  : option template :=
  List.find (λ t, bool_decide (t !! "name" = Some selected)) templates.

End Templates.

(** ** Send route ([send] and [append_sent_history]) *)

Module SendRoute.

Record HistoryRecord := {
  ts : string;
  h_to : string;
  h_subject : string;
  h_body : string;
  status : string;
  error : string
}.

(** The JSON body of the request, a missing key read as the empty
    string. *)
Record Payload := { p_to : string; p_subject : string; p_body : string }.

(** What the collaborators do during one request: the error raised by
    [request.get_json] on a body that is not JSON, the error raised by the
    mail transfer if it fails, the error raised by the [k]-th write to the
    history file if it fails, and the clock. *)
Record World := {
  json_error : string;
  smtp_error : option string;
  append_error : nat → option string;
  utcnow : string
}.

Inductive Response :=
| Ok
| NotOk (err : string).

Section route.
Variable w : World.

(** The [k]-th call of [append_sent_history] in the request: the new
    history, or the error it raises. *)
Definition append_sent_history (k : nat) (to_email subject body : string)
    (st err : string) (hist : list HistoryRecord)
  : string + list HistoryRecord :=
  let rec := {| ts := utcnow w +:+ "Z"; h_to := to_email;
                h_subject := subject; h_body := body;
                status := st; error := err |} in
  match append_error w k with
  | Some e => inl e
  | None => inr (hist ++ [rec])
  end.

Definition nonempty (s : string) : bool := negb (Str.is_empty s).

(** The [except Exception as e] handler; [k] appends were tried before. *)
Definition on_exception (k : nat) (to_email subject body e : string)
    (hist : list HistoryRecord) : Response * list HistoryRecord :=
  let hist :=
    if nonempty to_email || nonempty subject || nonempty body
    then match append_sent_history k to_email subject body "failed" e hist with
         | inr hist' => hist'
         | inl _ => hist
         end
    else hist in
  (NotOk e, hist).

Definition send (req : option Payload) (hist : list HistoryRecord)
  : Response * list HistoryRecord :=
  match req with
  | None => on_exception 0 "" "" "" (json_error w) hist
  | Some data =>
      let to_email := Py.strip (p_to data) in
      let subject := Py.strip (p_subject data) in
      let body := Py.strip (p_body data) in
      if Str.is_empty to_email || Str.is_empty subject || Str.is_empty body
      then (NotOk "To, subject, and body are required", hist)
      else
        match smtp_error w with
        | Some e => on_exception 0 to_email subject body e hist
        | None =>
            match append_sent_history 0 to_email subject body "sent" "" hist with
            | inr hist' => (Ok, hist')
            | inl e => on_exception 1 to_email subject body e hist
            end
        end
  end.

End route.

End SendRoute.

(** ** The page: state, requests and the two controllers *)

Module Ui.

(** The form controls read and written through their [value]. *)
Inductive control :=
| c_prompt | c_to | c_subject | c_body | c_autoMax | c_autoDelay.

(** The message boxes of [showBox] and [hideBox]. *)
Inductive box_id := aiOut | sendOut | autoOut | plistMsg.

(** The four flags of the controllers. *)
Inductive flag_id :=
| playRunning | awaitingApproval | autoRunning | autoStopRequested.

Global Instance control_eq_dec : EqDecision control.
Proof. solve_decision. Defined.
Global Instance box_id_eq_dec : EqDecision box_id.
Proof. solve_decision. Defined.
Global Instance flag_id_eq_dec : EqDecision flag_id.
Proof. solve_decision. Defined.

Record Box := { text : string; good : bool }.

Record Draft := { d_to : string; d_subject : string; d_body : string }.

(** The JSON replies of [/generate], [/send] and [/history]. *)
Inductive GenReply :=
| GenOk (email : Draft)
| GenErr (error : string).

Inductive SendReply :=
| SendOk
| SendErr (error : string).

(** The requests of a run and the waits between two sends, in order. *)
Inductive event :=
| Generate (prompt : string) (reply : GenReply)
| Send (to subject body : string) (reply : SendReply)
| LoadHistory
| Sleep (ms : Z).

Definition reply_ok (r : GenReply) : bool :=
  match r with GenOk _ => true | GenErr _ => false end.

Definition is_send (ev : event) : bool :=
  match ev with Send _ _ _ _ => true | _ => false end.

Definition is_send_ok (ev : event) : bool :=
  match ev with Send _ _ _ SendOk => true | _ => false end.


(** A generation or a send. *)
Definition request (ev : event) : bool :=
  match ev with Generate _ _ | Send _ _ _ _ => true | _ => false end.

Fixpoint count (P : event → bool) (tr : list event) : Z :=
  match tr with
  | [] => 0
  | ev :: tr' => ((if P ev then 1 else 0) + count P tr')%Z
  end.

Definition sends : list event → Z := count is_send.
Definition sends_ok : list event → Z := count is_send_ok.

(** The page.  [clock] counts the suspension points passed so far and
    [trace] keeps the requests made; the enabled state of the buttons is
    presentation only and is left out. *)
Record State := {
  prospects : list Prospect;
  activeIndex : Z;
  value : control → string;
  flag : flag_id → bool;
  box : box_id → Box;
  clock : nat;
  trace : list event
}.

(** What happens around the page while it waits, by suspension point:
    the replies of the server and the clicks of the operator on Stop and
    on Pause.  The operator uses no other control during a run and starts
    no second run. *)
Record Env := {
  generate_reply : nat → string → GenReply;
  send_reply : nat → string → string → string → SendReply;
  history_error : nat → option string;
  stop_clicked : nat → bool;
  pause_clicked : nat → bool
}.

Definition set_activeIndex (i : Z) (s : State) : State :=
  {| prospects := prospects s; activeIndex := i; value := value s;
     flag := flag s; box := box s; clock := clock s; trace := trace s |}.

Definition set_value (c : control) (v : string) (s : State) : State :=
  {| prospects := prospects s; activeIndex := activeIndex s;
     value := <[c := v]> (value s);
     flag := flag s; box := box s; clock := clock s; trace := trace s |}.

Definition set_flag (f : flag_id) (b : bool) (s : State) : State :=
  {| prospects := prospects s; activeIndex := activeIndex s;
     value := value s; flag := <[f := b]> (flag s);
     box := box s; clock := clock s; trace := trace s |}.

Definition set_box (b : box_id) (x : Box) (s : State) : State :=
  {| prospects := prospects s; activeIndex := activeIndex s;
     value := value s; flag := flag s; box := <[b := x]> (box s);
     clock := clock s; trace := trace s |}.

Definition log (ev : event) (s : State) : State :=
  {| prospects := prospects s; activeIndex := activeIndex s;
     value := value s; flag := flag s; box := box s;
     clock := clock s; trace := trace s ++ [ev] |}.

Definition tick (s : State) : State :=
  {| prospects := prospects s; activeIndex := activeIndex s;
     value := value s; flag := flag s; box := box s;
     clock := S (clock s); trace := trace s |}.

Definition showBox (b : box_id) (t : string) (ok : bool) (s : State) : State :=
  set_box b {| text := t; good := ok |} s.

Definition hideBox (b : box_id) (s : State) : State :=
  set_box b {| text := ""; good := good (box s b) |} s.

(** [x || d] on strings. *)
Definition or_else (x d : string) : string :=
  if Str.is_empty x then d else x.

(** [prospects[index]] *)
Definition prospect_at (s : State) (index : Z) : option Prospect :=
  if (index <? 0)%Z then None else prospects s !! Z.to_nat index.

Definition length_prospects (s : State) : Z :=
  Z.of_nat (List.length (prospects s)).

Definition setActive (index : Z) (s : State) : State :=
  let s := set_activeIndex index s in
  match prospect_at s index with
  | None => s
  | Some p =>
      let s := set_value c_to (email p) s in
      let s :=
        set_value c_prompt
          (Codec.setRecipientLines (value s c_prompt) (email p) (name p)) s in
      showBox plistMsg ("Selected: " +:+ email p) true s
  end.

Definition pauseBtn_onclick (s : State) : State :=
  let s := set_flag playRunning false s in
  let s := set_flag awaitingApproval false s in
  showBox sendOut "Play Mode paused." true s.

Definition autoStopBtn_onclick (s : State) : State :=
  if negb (flag s autoRunning) then s
  else
    let s := set_flag autoStopRequested true s in
    let s := set_flag autoRunning false s in
    showBox autoOut "Stopping auto..." true s.

(** *** Numbers of the queue form *)

Definition digit (c : ascii) : option Z :=
  let n := Str.code c in
  if ((48 <=? n) && (n <=? 57))%N then Some (Z.of_N n - 48)%Z else None.

Fixpoint digits_value (acc : Z) (s : string) : Z :=
  match s with
  | "" => acc
  | String c s' =>
      match digit c with
      | Some d => digits_value (10 * acc + d)%Z s'
      | None => acc
      end
  end.

(** [parseInt(s, 10)], [None] for [NaN]: leading white space, a sign,
    then the longest run of decimal digits.  The value is a float in the
    page and an integer here; the clamps below give the same result for
    both, as rounding is monotone and exact up to 600. *)
Definition parseInt (s : string) : option Z :=
  let s := Str.lstrip Js.is_space s in
  let '(sign, s) :=
    match s with
    | String "-" s' => ((-1)%Z, s')
    | String "+" s' => (1%Z, s')
    | _ => (1%Z, s)
    end in
  match s with
  | "" => None
  | String c _ =>
      match digit c with
      | Some _ => Some (sign * digits_value 0 s)%Z
      | None => None
      end
  end.

(** [parseInt(v || d, 10)], the default again for [NaN], then
    [Math.max(lo, Math.min(hi, n))]. *)
Definition read_clamped (v d : string) (dflt lo hi : Z) : Z :=
  let n := match parseInt (or_else v d) with Some n => n | None => dflt end in
  Z.max lo (Z.min hi n).

Definition read_maxSends (s : State) : Z :=
  read_clamped (value s c_autoMax) "15" 15 1 15.

Definition read_delaySec (s : State) : Z :=
  read_clamped (value s c_autoDelay) "12" 12 2 600.

(** How a run of the queue ends: the branch that leaves the loop. *)
Inductive halt :=
| NoProspects
| GenerationFailed
| MissingFields
| SendFailed
| ReachedMax
| ReachedEnd
| LoopExit.

Section page.
Variable env : Env.

(** One suspension point: the handlers of the clicks made meanwhile run
    before the function resumes. *)
Definition await (s : State) : State :=
  let k := clock s in
  let s := tick s in
  let s := if stop_clicked env k then autoStopBtn_onclick s else s in
  if pause_clicked env k then pauseBtn_onclick s else s.

Definition sleep (ms : Z) (s : State) : State :=
  await (log (Sleep ms) s).

Definition fillEmailFields (d : Draft) (s : State) : State :=
  let s := set_value c_to (or_else (d_to d) (value s c_to)) s in
  let s := set_value c_subject (d_subject d) s in
  set_value c_body (d_body d) s.

Definition preview (d : Draft) : string :=
  "TO: " +:+ d_to d +:+ NL +:+ "SUBJECT: " +:+ d_subject d
  +:+ NL +:+ NL +:+ d_body d.

Definition generateNow (s : State) : bool * State :=
  let s := hideBox aiOut s in
  let prompt := Js.trim (value s c_prompt) in
  if Str.is_empty prompt
  then (false, showBox aiOut "Click a prospect or write a prompt first." false s)
  else
    let s := showBox aiOut "Generating..." true s in
    let reply := generate_reply env (clock s) prompt in
    let s := await (log (Generate prompt reply) s) in
    match reply with
    | GenErr e => (false, showBox aiOut (or_else e "AI error") false s)
    | GenOk d =>
        let s := fillEmailFields d s in
        (true, showBox aiOut (preview d) true s)
    end.

Definition sendNow (s : State) : bool * State :=
  let s := hideBox sendOut s in
  let to := Js.trim (value s c_to) in
  let subject := Js.trim (value s c_subject) in
  let body := value s c_body in
  if Str.is_empty to || Str.is_empty subject || Str.is_empty body
  then (false, showBox sendOut "Fill To, Subject, and Body first." false s)
  else
    let s := showBox sendOut "Sending..." true s in
    let reply := send_reply env (clock s) to subject body in
    let s := await (log (Send to subject body reply) s) in
    match reply with
    | SendErr e => (false, showBox sendOut (or_else e "Send error") false s)
    | SendOk => (true, showBox sendOut "Sent successfully." true s)
    end.

Definition loadHistory (s : State) : State :=
  let err := history_error env (clock s) in
  let s := await (log LoadHistory s) in
  match err with
  | Some e => showBox sendOut (or_else e "Could not load history") false s
  | None => s
  end.

(** *** Play Mode *)

Definition startCycleForCurrentProspect (s : State) : State :=
  match prospects s with
  | [] => showBox sendOut "Add prospects first." false s
  | _ =>
      let s := if (activeIndex s <? 0)%Z then setActive 0 s else s in
      let s := set_flag awaitingApproval false s in
      let '(ok, s) := generateNow s in
      if negb ok then set_flag awaitingApproval false s
      else
        let s := set_flag awaitingApproval true s in
        showBox sendOut "Ready. Click Approve + Send." true s
  end.

Definition playBtn_onclick (s : State) : State :=
  match prospects s with
  | [] => showBox sendOut "Add prospects first." false s
  | _ =>
      let s := set_flag playRunning true s in
      let s := if (activeIndex s <? 0)%Z then setActive 0 s else s in
      startCycleForCurrentProspect s
  end.

Definition approveSendBtn_onclick (s : State) : State :=
  if negb (flag s awaitingApproval)
  then showBox sendOut "Generate first, then approve." false s
  else
    let '(sent, s) := sendNow s in
    let s := loadHistory s in
    if negb sent then s
    else
      let s := set_flag awaitingApproval false s in
      if negb (flag s playRunning)
      then showBox sendOut "Sent. Play Mode is off." true s
      else if (activeIndex s >=? length_prospects s - 1)%Z
      then
        let s := set_flag playRunning false s in
        showBox sendOut "Sent. Reached end of list. Play Mode stopped." true s
      else
        let s := setActive (activeIndex s + 1) s in
        startCycleForCurrentProspect s.

(** *** Full Automation Queue *)

Definition working (s : State) (i : Z) : string :=
  let em := match prospect_at s i with Some p => email p | None => "" end in
  "Working: " +:+ em +:+ " (" +:+ pretty (i + 1)%Z +:+ "/"
  +:+ pretty (length_prospects s) +:+ ")".

(** The [while] loop.  [remaining] is the number of prospects from [i]
    on: every round that continues moves [i] by one, so the loop test
    fails on [i] when [remaining] is used up.  The result carries the
    branch that left the loop and the final [sentCount]. *)
Fixpoint auto_loop (remaining : nat) (maxSends delaySec sentCount i : Z)
    (s : State) : halt * Z * State :=
  match remaining with
  | 0 => (LoopExit, sentCount, s)
  | S remaining' =>
      if flag s autoRunning && negb (flag s autoStopRequested)
         && (sentCount <? maxSends)%Z && (i <? length_prospects s)%Z
      then
        let s := setActive i s in
        let s := showBox autoOut (working s i) true s in
        let '(ok, s) := generateNow s in
        if negb ok
        then (GenerationFailed, sentCount,
              showBox autoOut "Stopped. Generation failed." false s)
        else
          let toVal := Js.trim (value s c_to) in
          let subVal := Js.trim (value s c_subject) in
          let bodyVal := Js.trim (value s c_body) in
          if Str.is_empty toVal || Str.is_empty subVal || Str.is_empty bodyVal
          then (MissingFields, sentCount,
                showBox autoOut
                  "Stopped. Missing To, Subject, or Body after generation."
                  false s)
          else
            let '(sent, s) := sendNow s in
            let s := loadHistory s in
            if negb sent
            then (SendFailed, sentCount,
                  showBox autoOut "Stopped. Send failed." false s)
            else
              let sentCount := (sentCount + 1)%Z in
              if (sentCount >=? maxSends)%Z
              then (ReachedMax, sentCount,
                    showBox autoOut
                      ("Done. Sent " +:+ pretty sentCount
                       +:+ ". (Reached max sends)") true s)
              else if (i >=? length_prospects s - 1)%Z
              then (ReachedEnd, sentCount,
                    showBox autoOut
                      ("Done. Sent " +:+ pretty sentCount
                       +:+ ". (Reached end of list)") true s)
              else
                let s :=
                  showBox autoOut
                    ("Sent " +:+ pretty sentCount +:+ ". Waiting "
                     +:+ pretty delaySec +:+ "s then moving to next...")
                    true s in
                let s := sleep (delaySec * 1000) s in
                auto_loop remaining' maxSends delaySec sentCount (i + 1) s
      else (LoopExit, sentCount, s)
  end.

Definition runFullAutomationQueue (s : State) : halt * Z * State :=
  match prospects s with
  | [] => (NoProspects, 0%Z, showBox autoOut "Add prospects first." false s)
  | _ =>
      let s :=
        if flag s playRunning
        then set_flag awaitingApproval false (set_flag playRunning false s)
        else s in
      let maxSends := read_maxSends s in
      let delaySec := read_delaySec s in
      let s := if (activeIndex s <? 0)%Z then setActive 0 s else s in
      let s := set_flag autoRunning true s in
      let s := set_flag autoStopRequested false s in
      let i := activeIndex s in
      let s :=
        showBox autoOut
          ("Auto started. Starting at prospect " +:+ pretty (i + 1)%Z
           +:+ " of " +:+ pretty (length_prospects s) +:+ ".") true s in
      let '(h, sentCount, s) :=
        auto_loop (Z.to_nat (length_prospects s - i))
          maxSends delaySec 0 i s in
      let s := set_flag autoRunning false s in
      let s := set_flag autoStopRequested false s in
      let s :=
        if Str.is_empty (text (box s autoOut))
        then showBox autoOut "Auto stopped." true s else s in
      (h, sentCount, s)
  end.

End page.

End Ui.

(** *** Play Mode: what an approval leads to *)

(** What an approval leads to, by the place of the cursor: at the last
    prospect Play Mode stops with a message that is not an error and no
    generation is requested; before it the cursor moves by one and one
    generation is requested, with the prompt of the next prospect. *)
Definition approve_outcome (env : Ui.Env) (s : Ui.State) : Prop :=
  let s' := Ui.approveSendBtn_onclick env s in
  let i := Ui.activeIndex s in
  if (i >=? Ui.length_prospects s - 1)%Z
  then
    Ui.activeIndex s' = i
    ∧ Ui.flag s' Ui.playRunning = false
    ∧ Ui.flag s' Ui.awaitingApproval = false
    ∧ Ui.box s' Ui.sendOut
      = {| Ui.text := "Sent. Reached end of list. Play Mode stopped.";
           Ui.good := true |}
    ∧ ∃ t su b,
        Ui.trace s'
        = Ui.trace s ++ [Ui.Send t su b Ui.SendOk; Ui.LoadHistory]
  else
    Ui.activeIndex s' = (i + 1)%Z
    ∧ ∃ next t su b reply,
        Ui.prospect_at s (i + 1) = Some next
        ∧ Ui.trace s'
          = Ui.trace s
            ++ [Ui.Send t su b Ui.SendOk; Ui.LoadHistory;
                Ui.Generate
                  (Js.trim
                     (Codec.setRecipientLines (Ui.value s Ui.c_prompt)
                        (email next) (name next)))
                  reply]
        ∧ Ui.flag s' Ui.awaitingApproval = Ui.reply_ok reply.

(** ** Sent history, read side ([read_sent_history], [history_route]) *)

Module History.

Section history.
(** A decoded JSON value, and [json.loads] on one line of the file,
    [None] when it raises. *)
Variable J : Type.
Variable json_loads : string → option J.

(** [lines[-n:]] for [n] at least one. *)
Definition last_lines (n : nat) (lines : list string) : list string :=
  drop (List.length lines - n) lines.

(** The file is [None] when it does not exist. *)
Definition read_sent_history (file : option string) (limit : Z) : list J :=
  match file with
  | None => []
  | Some content =>
      let lines := Py.splitlines content in
      omap json_loads
        (reverse (last_lines (Z.to_nat (Z.max limit 1)) lines))
  end.

(** [int] on the query argument, [None] when it raises, with the text of
    the error. *)
Variable py_int : string → option Z.
Variable int_error : string → string.

(** [history_route]: the argument [limit] of the query, [None] when it
    is absent. *)
Definition history_route (arg : option string) (file : option string)
  : string + list J :=
  let a := match arg with Some a => a | None => "50" end in
  match py_int a with
  | None => inl (int_error a)
  | Some limit =>
      let limit := Z.max 1 (Z.min limit 300) in
      inr (read_sent_history file limit)
  end.

End history.

End History.

(** ** Masked address of the sender ([masked_email]) *)

Module Masked.

(** ["*" * n] *)
Fixpoint stars (n : nat) : string :=
  match n with
  | 0 => ""
  | S n' => String "*" (stars n')
  end.

(** [name[-1]] of a name that is not empty. *)
Fixpoint last_char (c : ascii) (s : string) : ascii :=
  match s with
  | "" => c
  | String d s' => last_char d s'
  end.

(** The test on the at sign and the split at the first one are one cut
    here: the cut fails exactly when the address has no at sign. *)
Definition masked_email (email : option string) : string :=
  match email with
  | None => "(not set)"
  | Some e =>
      match Str.cut "@" e with
      | None => "(not set)"
      | Some (name, domain) =>
          if String.length name <=? 2
          then stars (String.length name) +:+ "@" +:+ domain
          else
            match name with
            | "" => "@" +:+ domain
            | String a rest =>
                String a (stars (String.length name - 2))
                +:+ String (last_char a rest) "" +:+ "@" +:+ domain
            end
      end
  end.

End Masked.

(** ** Drafting routes ([generate], [followup]) *)

Module AiRoutes.

(** What the call of the chat model and the decoding of its text come
    to: an exception other than a JSON decoding error, raised by the call
    or by a text that is JSON but no object of strings; a text that is
    not JSON; or a JSON object, a key without a string read as absent. *)
Inductive Completion :=
| Raises (e : string)
| NotJson
| Json (obj : gmap string string).

Record Email := { e_to : string; e_subject : string; e_body : string }.

Inductive Reply :=
| ROk (email : Email)
| RNotOk (error : string).

(** [email.get(k) or ""] *)
Definition field (obj : gmap string string) (k : string) : string :=
  match obj !! k with Some v => v | None => "" end.

Definition generate_system : string :=
  "You are an email drafting assistant. Return ONLY valid JSON with keys: to, subject, body. If the user provides a line like 'Recipient Email: someone@domain.com', you MUST set 'to' to that exact email. If the user did not provide a recipient email, set 'to' to an empty string. Keep it clear, professional, and ready to send.".

Definition followup_system : string :=
  "You write email follow-ups. Return ONLY valid JSON with keys: to, subject, body. The follow-up must be short, friendly, and easy to reply to. Do not mention that you are an AI.".

(** The JSON body of a request to [/followup], a missing key read as the
    empty string. *)
Record FollowupRequest := {
  f_to : string;
  f_prospect_name : string;
  f_previous_subject : string;
  f_previous_body : string;
  f_campaign_prompt : string
}.

Definition followup_message
    (to_email prospect_name prev_subject prev_body campaign_prompt : string)
  : string :=
  let user_msg :=
    "Recipient Email: " +:+ to_email +:+ NL
    +:+ "Prospect Name: " +:+ prospect_name +:+ NL +:+ NL
    +:+ "Create a follow-up email to the previous email below." +:+ NL
    +:+ "Keep it under 110 words. One clear question at the end." +:+ NL in
  let user_msg :=
    if Str.is_empty campaign_prompt then user_msg
    else user_msg +:+ NL +:+ "Campaign context:" +:+ NL
         +:+ campaign_prompt +:+ NL in
  user_msg +:+ NL +:+ "Previous subject:" +:+ NL +:+ prev_subject +:+ NL
  +:+ NL +:+ "Previous body:" +:+ NL +:+ prev_body +:+ NL.

Section routes.
(** The chat model on a system text and a user text, and the error of a
    request body that cannot be read. *)
Variable complete : string → string → Completion.
Variable json_error : string.

(** [generate]; the request is its [prompt], [None] for a body that
    cannot be read. *)
Definition generate (req : option string) : Reply :=
  match req with
  | None => RNotOk json_error
  | Some prompt =>
      let prompt := Py.strip prompt in
      if Str.is_empty prompt then RNotOk "Prompt is required"
      else
        match complete generate_system prompt with
        | Raises e => RNotOk e
        | NotJson =>
            RNotOk
              "AI response was not valid JSON. Try again with a clearer prompt."
        | Json email =>
            ROk {| e_to := Py.strip (field email "to");
                   e_subject := Py.strip (field email "subject");
                   e_body := Py.strip (field email "body") |}
        end
  end.

Definition followup (req : option FollowupRequest) : Reply :=
  match req with
  | None => RNotOk json_error
  | Some data =>
      let to_email := Py.strip (f_to data) in
      let prospect_name := Py.strip (f_prospect_name data) in
      let prev_subject := Py.strip (f_previous_subject data) in
      let prev_body := Py.strip (f_previous_body data) in
      let campaign_prompt := Py.strip (f_campaign_prompt data) in
      if Str.is_empty to_email || Str.is_empty prev_subject
         || Str.is_empty prev_body
      then RNotOk "To, previous_subject, and previous_body are required"
      else
        let user_msg :=
          followup_message to_email prospect_name prev_subject prev_body
            campaign_prompt in
        match complete followup_system user_msg with
        | Raises e => RNotOk e
        | NotJson => RNotOk "AI response was not valid JSON. Try again."
        | Json email =>
            let subject := Py.strip (field email "subject") in
            ROk {| e_to := Ui.or_else (Py.strip (field email "to")) to_email;
                   e_subject :=
                     if Str.is_empty subject then "Quick follow-up"
                     else subject;
                   e_body := Py.strip (field email "body") |}
        end
  end.

End routes.

End AiRoutes.

(** ** The Next button ([nextBtn.onclick]) *)

Module Buttons.
Import Ui.

Section page.
Variable env : Env.

(** The cycle that the handler starts is run to its end here, as for the
    other handlers. *)
Definition nextBtn_onclick (s : State) : State :=
  match prospects s with
  | [] => s
  | _ =>
      let next := Z.min (activeIndex s + 1) (length_prospects s - 1) in
      let s := setActive next s in
      if flag s playRunning then startCycleForCurrentProspect env s else s
  end.

(** [followUpNow].  The reply of [/followup] is given by suspension
    point, as the other replies of the server are; the result carries
    the request that was made, if one was. *)
Variable followup_reply : nat → AiRoutes.FollowupRequest → GenReply.


End page.

End Buttons.

(** ** Scenarios *)

(** A page in Play Mode on the first of two prospects, with a draft
    awaiting approval, and a server that accepts everything. *)
Definition play_env : Ui.Env :=
  {| Ui.generate_reply := λ _ _,
       Ui.GenOk {| Ui.d_to := ""; Ui.d_subject := "Hi"; Ui.d_body := "Hello" |};
     Ui.send_reply := λ _ _ _ _, Ui.SendOk;
     Ui.history_error := λ _, None;
     Ui.stop_clicked := λ _, false;
     Ui.pause_clicked := λ _, false |}.

Definition play_state : Ui.State :=
  {| Ui.prospects := [ {| name := "Jane"; email := "jane@biz.com" |};
                       {| name := ""; email := "bob@biz.com" |} ];
     Ui.activeIndex := 0;
     Ui.value := λ c,
       match c with
       | Ui.c_to => "jane@biz.com"
       | Ui.c_subject => "Hi"
       | Ui.c_body => "Hello"
       | _ => ""
       end;
     Ui.flag := λ f,
       match f with
       | Ui.playRunning | Ui.awaitingApproval => true
       | _ => false
       end;
     Ui.box := λ _, {| Ui.text := ""; Ui.good := true |};
     Ui.clock := 0;
     Ui.trace := [] |}.

Definition three_prospects : list Prospect :=
  [ {| name := "Ann"; email := "ann@x.io" |};
    {| name := ""; email := "bob@x.io" |};
    {| name := "Cy"; email := "cy@x.io" |} ].

(** A fresh page with three prospects, none selected, and the queue form
    set to two sends and two seconds. *)
Definition queue_state : Ui.State :=
  {| Ui.prospects := three_prospects;
     Ui.activeIndex := -1;
     Ui.value := λ c,
       match c with
       | Ui.c_autoMax | Ui.c_autoDelay => "2"
       | _ => ""
       end;
     Ui.flag := λ _, false;
     Ui.box := λ _, {| Ui.text := ""; Ui.good := true |};
     Ui.clock := 0;
     Ui.trace := [] |}.

(** A server that accepts everything and an operator who clicks Stop
    while the first request of the run is under way. *)
Definition stop_at_once : Ui.Env :=
  {| Ui.generate_reply := λ _ _,
       Ui.GenOk {| Ui.d_to := ""; Ui.d_subject := "Hi"; Ui.d_body := "Hello" |};
     Ui.send_reply := λ _ _ _ _, Ui.SendOk;
     Ui.history_error := λ _, None;
     Ui.stop_clicked := λ k, Nat.eqb k 0;
     Ui.pause_clicked := λ _, false |}.

Definition failing_generation : Ui.Env :=
  {| Ui.generate_reply := λ _ _, Ui.GenErr "quota exceeded";
     Ui.send_reply := λ _ _ _ _, Ui.SendOk;
     Ui.history_error := λ _, None;
     Ui.stop_clicked := λ _, false;
     Ui.pause_clicked := λ _, false |}.

Definition failing_send : Ui.Env :=
  {| Ui.generate_reply := λ _ _,
       Ui.GenOk {| Ui.d_to := ""; Ui.d_subject := "Hi"; Ui.d_body := "Hello" |};
     Ui.send_reply := λ _ _ _ _, Ui.SendErr "relay refused";
     Ui.history_error := λ _, None;
     Ui.stop_clicked := λ _, false;
     Ui.pause_clicked := λ _, false |}.

(** A mail and three behaviours of the collaborators of the send route:
    a relay that refuses the mail, one that accepts it, and one that
    accepts it while the history file cannot be written. *)
Definition hello_mail : SendRoute.Payload :=
  {| SendRoute.p_to := "a@b.c"; SendRoute.p_subject := "Hi";
     SendRoute.p_body := "Hello" |}.

Definition refusing_relay : SendRoute.World :=
  {| SendRoute.json_error := "bad request";
     SendRoute.smtp_error := Some "relay refused";
     SendRoute.append_error := λ _, None;
     SendRoute.utcnow := "2024-01-01T00:00:00" |}.

Definition accepting_relay : SendRoute.World :=
  {| SendRoute.json_error := "bad request";
     SendRoute.smtp_error := None;
     SendRoute.append_error := λ _, None;
     SendRoute.utcnow := "2024-01-01T00:00:00" |}.

Definition full_disk : SendRoute.World :=
  {| SendRoute.json_error := "bad request";
     SendRoute.smtp_error := None;
     SendRoute.append_error := λ _, Some "disk full";
     SendRoute.utcnow := "2024-01-01T00:00:00" |}.

(** * Facts and theorems *)

(** ** Strings *)

Module StrFacts.
Import Str.

Lemma app_cons c s t : String c s +:+ t = String c (s +:+ t).
Proof. reflexivity. Qed.

Lemma app_nil_l t : "" +:+ t = t.
Proof. reflexivity. Qed.

Lemma app_nil_r s : s +:+ "" = s.
Proof. induction s as [|c s IH]; [done|]. by rewrite app_cons, IH. Qed.

Lemma app_assoc s t u : (s +:+ t) +:+ u = s +:+ t +:+ u.
Proof. induction s as [|c s IH]; [done|]. by rewrite !app_cons, IH. Qed.

Lemma is_empty_true s : is_empty s = true ↔ s = "".
Proof. by destruct s. Qed.

Lemma mem_cons c d s :
  mem c (String d s) = if Ascii.eqb c d then true else mem c s.
Proof. reflexivity. Qed.

Lemma mem_app c s t : mem c (s +:+ t) = mem c s || mem c t.
Proof.
  induction s as [|d s IH]; [done|].
  rewrite app_cons, !mem_cons, IH. by destruct (Ascii.eqb c d).
Qed.

(** The head of a string is not in the class [sp]. *)
Definition head_out (sp : ascii → bool) (s : string) : Prop :=
  match s with "" => True | String c _ => sp c = false end.

Section strip.
Variable sp : ascii → bool.

Lemma lstrip_head s : head_out sp (lstrip sp s).
Proof.
  induction s as [|c s IH]; simpl; [done|].
  destruct (sp c) eqn:E; [done|]. exact E.
Qed.

Lemma lstrip_id s : head_out sp s → lstrip sp s = s.
Proof. destruct s as [|c s]; simpl; [done|]. by intros ->. Qed.

Lemma rstrip_head s : head_out sp s → head_out sp (rstrip sp s).
Proof.
  destruct s as [|c s]; simpl; [done|]. intros E.
  destruct (rstrip sp s); [by rewrite E|done].
Qed.

Lemma rstrip_idem s : rstrip sp (rstrip sp s) = rstrip sp s.
Proof.
  induction s as [|c s IH]; simpl; [done|].
  destruct (rstrip sp s) as [|d r] eqn:E.
  - destruct (sp c) eqn:Ec; simpl; [done|]. by rewrite Ec.
  - change (rstrip sp (String c (String d r)))
      with (match rstrip sp (String d r) with
            | "" => if sp c then "" else String c ""
            | String _ _ as r0 => String c r0
            end).
    by rewrite IH.
Qed.

Lemma strip_head s : head_out sp (strip sp s).
Proof. apply rstrip_head, lstrip_head. Qed.

Lemma strip_idem s : strip sp (strip sp s) = strip sp s.
Proof.
  unfold strip at 1. rewrite (lstrip_id _ (strip_head s)).
  apply rstrip_idem.
Qed.

End strip.

Lemma strip_prefix_cons a p b s :
  strip_prefix (String a p) (String b s)
  = if Ascii.eqb a b then strip_prefix p s else None.
Proof. reflexivity. Qed.

Lemma cut_cons sep c s :
  cut sep (String c s)
  = match strip_prefix sep (String c s) with
    | Some rest => Some ("", rest)
    | None =>
        match cut sep s with
        | Some (a, b) => Some (String c a, b)
        | None => None
        end
    end.
Proof. reflexivity. Qed.

Lemma strip_prefix_app p s : strip_prefix p (p +:+ s) = Some s.
Proof.
  induction p as [|a p IH]; [done|].
  rewrite app_cons. simpl. by rewrite Ascii.eqb_refl.
Qed.

Lemma strip_prefix_Some p s r : strip_prefix p s = Some r → s = p +:+ r.
Proof.
  revert s. induction p as [|a p IH]; intros s; simpl.
  - by intros [= ->].
  - destruct s as [|b s]; [done|].
    destruct (Ascii.eqb a b) eqn:E; [|done].
    apply Ascii.eqb_eq in E as ->. intros ->%IH. by rewrite app_cons.
Qed.

Lemma cut_Some sep s a b : cut sep s = Some (a, b) → s = a +:+ sep +:+ b.
Proof.
  revert a. induction s as [|c s IH]; intros a.
  - simpl. destruct (strip_prefix sep "") as [r|] eqn:E; [|done].
    intros [= <- <-]. by apply strip_prefix_Some in E.
  - simpl. destruct (strip_prefix sep (String c s)) as [r|] eqn:E.
    + intros [= <- <-]. by apply strip_prefix_Some in E.
    + destruct (cut sep s) as [[a' b']|]; [|done].
      intros [= <- <-]. rewrite app_cons. f_equal. by apply IH.
Qed.

(** Cutting at one character: the character is not in the left part. *)
Lemma cut_char_left c s a b :
  cut (String c "") s = Some (a, b) → mem c a = false.
Proof.
  revert a. induction s as [|d s IH]; intros a; simpl; [done|].
  destruct (Ascii.eqb c d) eqn:E.
  - by intros [= <- <-].
  - destruct (cut (String c "") s) as [[a' b']|]; [|done].
    intros [= <- <-]. rewrite mem_cons, E. by apply IH.
Qed.

Lemma cut_char_mem c s :
  mem c s = true → ∃ a b, cut (String c "") s = Some (a, b).
Proof.
  induction s as [|d s IH]; [done|].
  rewrite mem_cons. simpl. destruct (Ascii.eqb c d) eqn:E; [by eauto|].
  intros (a & b & ->)%IH. eauto.
Qed.

End StrFacts.

(** ** Prospect list parser: deduplication *)

Module ParserFacts.
Import Parser.

(** The loop seen from its list of candidates: a candidate is kept
    when its key has not been seen. *)
Fixpoint keep_unseen (seen : gset string) (cs : list Prospect)
  : list Prospect :=
  match cs with
  | [] => []
  | p :: cs' =>
      if decide (key p ∈ seen) then keep_unseen seen cs'
      else p :: keep_unseen ({[key p]} ∪ seen) cs'
  end.

Lemma foldl_step_out (lines : list string) :
  ∀ out seen,
    (foldl step (out, seen) lines).1
    = out ++ keep_unseen seen (omap candidate lines).
Proof.
  induction lines as [|raw lines IH]; intros out seen; simpl.
  - by rewrite app_nil_r.
  - unfold step at 2. destruct (candidate raw) as [p|]; simpl.
    + destruct (decide (key p ∈ seen)); [apply IH|].
      rewrite IH. by rewrite <- app_assoc.
    + apply IH.
Qed.

Lemma parse_keep_unseen (text : string) :
  parse_prospect_lines text = keep_unseen ∅ (candidates text).
Proof. unfold parse_prospect_lines. by rewrite foldl_step_out. Qed.

Lemma keep_unseen_sublist (cs : list Prospect) :
  ∀ seen, sublist (keep_unseen seen cs) cs.
Proof.
  induction cs as [|p cs IH]; intros seen; simpl; [constructor|].
  destruct (decide (key p ∈ seen)).
  - by apply sublist_cons.
  - by apply sublist_skip.
Qed.






End ParserFacts.


(** ** Prospect list parser: the comma rule *)

(** A line with a trailing comma is split, never taken whole: the code
    drops ["a@b.c,"], the rule of the specification would keep it as an
    email. *)
Lemma comma_rule_no_fall_through :
  let line := "a@b.c," in
  Py.strip line = line
  ∧ Str.mem "," line = true
  ∧ Str.mem "<" line && Str.mem ">" line = false
  ∧ Parser.classify line = ("a@b.c", "")
  ∧ spec_comma_rule line = ("", "a@b.c,")
  ∧ Parser.classify line ≠ spec_comma_rule line
  ∧ Parser.parse_prospect_lines line = [].
Proof. by vm_compute. Qed.

(** C6 (amended).  A non-blank line with a comma, and not both angle
    brackets, is split at its first comma into a name and an email, each
    trimmed.  The split always gives two parts and nothing falls through:
    the line is a candidate with that name (also an empty one) when the
    email part contains an at sign and a dot, and is dropped otherwise. *)
Theorem comma_line_rule (raw : string) :
  let line := Py.strip raw in
  line ≠ "" →
  Str.mem "," line = true →
  Str.mem "<" line && Str.mem ">" line = false →
  ∃ a b,
    line = a +:+ "," +:+ b
    ∧ Str.mem "," a = false
    ∧ Parser.classify line = (Py.strip a, Py.strip b)
    ∧ Parser.candidate raw
      = if looks_like_email (Py.strip b)
        then Some {| name := Py.strip a; email := Py.strip b |}
        else None.
Proof.
  intros line Hne Hc Hb.
  destruct (StrFacts.cut_char_mem _ _ Hc) as (a & b & Hcut).
  exists a, b.
  assert (Hcl : Parser.classify line = (Py.strip a, Py.strip b)).
  { unfold Parser.classify. rewrite Hb, Hc.
    unfold Py.split1. by rewrite Hcut. }
  split; [by apply StrFacts.cut_Some in Hcut|].
  split; [by apply StrFacts.cut_char_left in Hcut|].
  split; [done|].
  unfold Parser.candidate. fold line.
  destruct (Str.is_empty line) eqn:E.
  { by apply StrFacts.is_empty_true in E. }
  rewrite Hcl. unfold Py.strip. rewrite !StrFacts.strip_idem.
  unfold looks_like_email.
  by destruct (Str.mem "@" _), (Str.mem "." _).
Qed.

Lemma comma_line_rule_witness :
  ∃ a b,
    "Jane, jane@biz.com" = a +:+ "," +:+ b
    ∧ Str.mem "," a = false
    ∧ Parser.classify "Jane, jane@biz.com" = (Py.strip a, Py.strip b)
    ∧ Parser.candidate "Jane, jane@biz.com"
      = if looks_like_email (Py.strip b)
        then Some {| name := Py.strip a; email := Py.strip b |}
        else None.
Proof.
  apply (comma_line_rule "Jane, jane@biz.com"); by vm_compute.
Defined.

(** ** Cutting and splitting *)

Module CutFacts.
Import Str StrFacts.

Lemma length_app s t :
  String.length (s +:+ t) = String.length s + String.length t.
Proof. induction s as [|c s IH]; [done|]. rewrite app_cons. simpl. lia. Qed.

Lemma strip_prefix_empty sep : sep ≠ "" → strip_prefix sep "" = None.
Proof. by destruct sep. Qed.

Lemma cut_empty sep : sep ≠ "" → cut sep "" = None.
Proof. intros H. simpl. by rewrite strip_prefix_empty. Qed.

Lemma strip_prefix_extend p s r t :
  strip_prefix p s = Some r → strip_prefix p (s +:+ t) = Some (r +:+ t).
Proof.
  revert s. induction p as [|a p IH]; intros s; simpl.
  - by intros [= ->].
  - destruct s as [|b s]; [done|]. rewrite app_cons.
    destruct (Ascii.eqb a b); [apply IH|done].
Qed.

(** An occurrence anywhere is found. *)
Lemma cut_finds sep x y : is_Some (cut sep (x +:+ sep +:+ y)).
Proof.
  induction x as [|c x IH].
  - rewrite app_nil_l. destruct (sep +:+ y) eqn:E; simpl; rewrite <- E;
      by rewrite strip_prefix_app.
  - rewrite app_cons. simpl.
    destruct (strip_prefix sep _); [done|].
    destruct IH as [[a b] ->]. done.
Qed.

Lemma cut_None_infix sep l m r :
  cut sep (l +:+ m +:+ r) = None → cut sep m = None.
Proof.
  intros H. destruct (cut sep m) as [[a b]|] eqn:E; [|done].
  apply cut_Some in E as ->.
  pose proof (cut_finds sep (l +:+ a) (b +:+ r)) as [x Hx].
  rewrite !app_assoc in Hx. rewrite !app_assoc in H. congruence.
Qed.

(** Nothing is found to the left of the leftmost occurrence. *)
Lemma cut_left_None sep s a b :
  sep ≠ "" → cut sep s = Some (a, b) → cut sep a = None.
Proof.
  intros Hsep. revert a. induction s as [|c s IH]; intros a.
  - by rewrite cut_empty.
  - simpl. destruct (strip_prefix sep (String c s)) as [r|] eqn:E.
    + intros [= <- <-]. by apply cut_empty.
    + destruct (cut sep s) as [[a' b']|] eqn:Hc; [|done].
      intros [= <- <-]. simpl.
      destruct (strip_prefix sep (String c a')) as [r|] eqn:E'.
      * apply cut_Some in Hc. subst s.
        apply (strip_prefix_extend _ _ _ (sep +:+ b')) in E'.
        rewrite app_cons in E'. congruence.
      * by rewrite (IH a').
Qed.

Lemma lstrip_suffix sp s : ∃ l, s = l +:+ lstrip sp s.
Proof.
  induction s as [|c s [l IH]]; [by exists ""|]. simpl.
  destruct (sp c); [|by exists ""].
  exists (String c l). by rewrite app_cons, <- IH.
Qed.

Lemma rstrip_prefix sp s : ∃ r, s = rstrip sp s +:+ r.
Proof.
  induction s as [|c s [r IH]]; [by exists ""|]. simpl.
  destruct (rstrip sp s) as [|d t] eqn:E.
  - destruct (sp c).
    + by exists (String c s).
    + exists s. by rewrite app_cons, app_nil_l.
  - exists r. by rewrite app_cons, <- IH.
Qed.

Lemma strip_infix sp s : ∃ l r, s = l +:+ strip sp s +:+ r.
Proof.
  destruct (lstrip_suffix sp s) as [l Hl].
  destruct (rstrip_prefix sp (lstrip sp s)) as [r Hr].
  exists l, r. unfold strip. by rewrite <- Hr.
Qed.

Lemma cut_None_strip sep sp s : cut sep s = None → cut sep (strip sp s) = None.
Proof.
  destruct (strip_infix sp s) as (l & r & H). intros Hc.
  rewrite H in Hc. by apply cut_None_infix in Hc.
Qed.

Lemma split_fuel_enough sep s :
  sep ≠ "" →
  ∀ fuel, String.length s ≤ fuel → Js.split_fuel fuel sep s = Js.split sep s.
Proof.
  intros Hsep. unfold Js.split.
  remember (String.length s) as n eqn:Hn.
  revert s Hn. induction (lt_wf n) as [n _ IH]. intros s Hn fuel Hf.
  destruct (cut sep s) as [[a b]|] eqn:E.
  - pose proof (cut_Some _ _ _ _ E) as Hs.
    assert (Hlen : String.length s
                   = String.length a + String.length sep + String.length b).
    { rewrite Hs at 1. rewrite !length_app. lia. }
    assert (0 < String.length sep) by (destruct sep; [done|simpl; lia]).
    destruct fuel as [|fuel]; [lia|]. destruct n as [|n]; [lia|].
    simpl. rewrite E. f_equal.
    rewrite (IH (String.length b)) by (done || lia).
    symmetry. apply (IH (String.length b)); (done || lia).
  - destruct fuel, n; simpl; by rewrite ?E.
Qed.

(** The second piece of [s.split(sep, 2)]: it ends where [sep] occurs
    again. *)
Lemma split_second sep s a b :
  sep ≠ "" → cut sep s = Some (a, b) →
  nth_or_empty 1 (Js.split_limit sep 2 s)
  = match cut sep b with Some (b1, _) => b1 | None => b end.
Proof.
  intros Hsep E. pose proof (cut_Some _ _ _ _ E) as Hs.
  unfold Js.split_limit, Js.split.
  assert (0 < String.length sep) by (destruct sep; [done|simpl; lia]).
  destruct (String.length s) as [|m] eqn:Hm.
  { rewrite Hs, !length_app in Hm. lia. }
  simpl. rewrite E. unfold nth_or_empty. simpl.
  destruct m as [|m]; simpl.
  - assert (b = "") as ->.
    { rewrite Hs, !length_app in Hm. destruct b; [done|simpl in Hm; lia]. }
    by rewrite cut_empty.
  - by destruct (cut sep b) as [[b1 b2]|].
Qed.

End CutFacts.

(** ** Prompt document codec *)

Module CodecFacts.
Import Str StrFacts CutFacts Codec.

#[local] Arguments Ascii.eqb : simpl never.

Lemma DIVIDER_nonempty : DIVIDER ≠ "".
Proof. done. Qed.

Lemma getCampaignPrompt_absent full :
  includes DIVIDER full = false → getCampaignPrompt full = "".
Proof. unfold getCampaignPrompt. by intros ->. Qed.

Lemma getCampaignPrompt_cut full h b :
  cut DIVIDER full = Some (h, b) →
  getCampaignPrompt full
  = match cut DIVIDER b with Some (b1, _) => b1 | None => b end.
Proof.
  intros E. unfold getCampaignPrompt, includes. rewrite E.
  by apply (split_second _ _ h b).
Qed.

Lemma getCampaignPrompt_once full h b :
  cut DIVIDER full = Some (h, b) → includes DIVIDER b = false →
  getCampaignPrompt full = b.
Proof.
  intros E Hb. rewrite (getCampaignPrompt_cut _ _ _ E).
  unfold includes in Hb. by destruct (cut DIVIDER b) as [[]|].
Qed.

(** The extracted campaign text never contains the divider. *)
Lemma getCampaignPrompt_no_divider full :
  cut DIVIDER (getCampaignPrompt full) = None.
Proof.
  destruct (cut DIVIDER full) as [[h b]|] eqn:E.
  - rewrite (getCampaignPrompt_cut _ _ _ E).
    destruct (cut DIVIDER b) as [[b1 b2]|] eqn:Eb; [|done].
    by apply (cut_left_None _ _ _ _ DIVIDER_nonempty Eb).
  - rewrite getCampaignPrompt_absent; [done|].
    unfold includes. by rewrite E.
Qed.

(** *** The header and the divider *)

(** Every line feed is followed by a character that is not one. *)
Fixpoint lf_apart (s : string) : bool :=
  match s with
  | "" => true
  | String c s' =>
      (negb (Ascii.eqb c Py.LF)
       || match s' with
          | String d _ => negb (Ascii.eqb d Py.LF)
          | "" => false
          end)
      && lf_apart s'
  end.

Lemma lf_apart_cons c s :
  lf_apart (String c s)
  = (negb (Ascii.eqb c Py.LF)
     || match s with
        | String d _ => negb (Ascii.eqb d Py.LF)
        | "" => false
        end)
    && lf_apart s.
Proof. reflexivity. Qed.

Lemma lf_apart_single_app s t :
  single_line s → lf_apart (s +:+ t) = lf_apart t.
Proof.
  unfold single_line. induction s as [|c s IH]; [done|].
  rewrite mem_cons, app_cons. simpl.
  rewrite (Ascii.eqb_sym c). destruct (Ascii.eqb Py.LF c); [done|].
  intros H. simpl. by apply IH.
Qed.

Lemma lf_apart_single s : single_line s → lf_apart s = true.
Proof.
  intros H. rewrite <- (app_nil_r s). by rewrite lf_apart_single_app.
Qed.

Lemma header_lf_apart em nm :
  single_line em → single_line nm → lf_apart (header em nm) = true.
Proof.
  intros He Hn. unfold header.
  rewrite (lf_apart_single_app "Recipient Email: ") by done.
  rewrite (lf_apart_single_app em) by done.
  change (NL +:+ "Prospect Name: " +:+ nm)
    with (String Py.LF (String "P" ("rospect Name: " +:+ nm))).
  change (lf_apart (String Py.LF (String "P" ("rospect Name: " +:+ nm))))
    with (lf_apart ("Prospect Name: " +:+ nm)).
  rewrite (lf_apart_single_app "Prospect Name: ") by done.
  by apply lf_apart_single.
Qed.

Lemma cut_here sep s r : strip_prefix sep s = Some r → cut sep s = Some ("", r).
Proof. intros H. destruct s; simpl; by rewrite H. Qed.

Lemma DIVIDER_unfold :
  DIVIDER = String Py.LF (String Py.LF ("--- CAMPAIGN PROMPT ---" +:+ NL)).
Proof. reflexivity. Qed.

(** The divider cannot start inside such a text, so the one put after it
    is the leftmost. *)
Lemma cut_lf_apart h c :
  lf_apart h = true → cut DIVIDER (h +:+ DIVIDER +:+ c) = Some (h, c).
Proof.
  induction h as [|x h IH]; intros H.
  - rewrite app_nil_l. apply cut_here, strip_prefix_app.
  - rewrite lf_apart_cons in H. apply andb_true_iff in H as [Hx Hh].
    rewrite app_cons, cut_cons.
    assert (strip_prefix DIVIDER (String x (h +:+ DIVIDER +:+ c)) = None)
      as ->; [|by rewrite (IH Hh)].
    rewrite DIVIDER_unfold at 1. rewrite strip_prefix_cons.
    destruct (Ascii.eqb Py.LF x) eqn:E; [|done].
    apply Ascii.eqb_eq in E as <-.
    destruct h as [|d h]; [done|].
    rewrite (app_cons d), strip_prefix_cons, (Ascii.eqb_sym Py.LF d).
    rewrite Ascii.eqb_refl in Hx. simpl in Hx.
    by destruct (Ascii.eqb d Py.LF).
Qed.

Lemma getCampaignPrompt_rebuilt em nm c :
  single_line em → single_line nm → cut DIVIDER c = None →
  getCampaignPrompt (header em nm +:+ DIVIDER +:+ c) = c.
Proof.
  intros He Hn Hc.
  apply (getCampaignPrompt_once _ (header em nm)).
  - apply cut_lf_apart. by apply header_lf_apart.
  - unfold includes. by rewrite Hc.
Qed.

Lemma ensure_includes full :
  includes DIVIDER (ensureCampaignPromptExists full) = true.
Proof.
  unfold ensureCampaignPromptExists.
  destruct (includes DIVIDER full) eqn:E; [done|]. by vm_compute.
Qed.

Lemma getCampaignPrompt_ensure full :
  getCampaignPrompt (ensureCampaignPromptExists full)
  = if includes DIVIDER full then getCampaignPrompt full else starter.
Proof.
  unfold ensureCampaignPromptExists.
  destruct (includes DIVIDER full); [done|]. by vm_compute.
Qed.

(** The campaign text after [setRecipientLines]. *)
Lemma setRecipientLines_text full em nm :
  single_line em → single_line nm →
  getCampaignPrompt (setRecipientLines full em nm)
  = Js.trim (if includes DIVIDER full then getCampaignPrompt full else starter).
Proof.
  intros He Hn. unfold setRecipientLines.
  rewrite getCampaignPrompt_rebuilt; [|done|done|].
  - by rewrite getCampaignPrompt_ensure.
  - apply cut_None_strip, getCampaignPrompt_no_divider.
Qed.

(** *** The labelled lines of the header *)

Fixpoint all_chars (P : ascii → bool) (s : string) : bool :=
  match s with
  | "" => true
  | String c s' => P c && all_chars P s'
  end.

Definition no_terminator (s : string) : Prop :=
  all_chars (λ c, negb (Js.is_line_terminator c)) s = true.

Lemma all_chars_app P s t :
  all_chars P (s +:+ t) = all_chars P s && all_chars P t.
Proof.
  induction s as [|c s IH]; [done|].
  rewrite app_cons. simpl. by rewrite IH, andb_assoc.
Qed.

Lemma no_terminator_strip sp s : no_terminator s → no_terminator (strip sp s).
Proof.
  unfold no_terminator. destruct (strip_infix sp s) as (l & r & H).
  rewrite H at 1. rewrite !all_chars_app.
  by intros [_ [? _]%andb_true_iff]%andb_true_iff.
Qed.

Lemma take_line_no_terminator s : no_terminator (Js.take_line s).
Proof.
  unfold no_terminator. induction s as [|c s IH]; [done|]. simpl.
  destruct (Js.is_line_terminator c) eqn:E; [done|]. simpl. by rewrite E.
Qed.

Lemma take_line_app s c t :
  no_terminator s → Js.is_line_terminator c = true →
  Js.take_line (s +:+ String c t) = s.
Proof.
  unfold no_terminator. intros Hs Hc. induction s as [|d s IH].
  - rewrite app_nil_l. simpl. by rewrite Hc.
  - simpl in Hs. apply andb_true_iff in Hs as [Hd Hs].
    rewrite app_cons. simpl. apply negb_true_iff in Hd. rewrite Hd.
    by rewrite IH.
Qed.

(** What [getRecipientFromPrompt] returns for a label is trimmed, starts
    with no white space and lies on one line. *)
Lemma group_shape label full :
  let g := group_or_empty (Js.match_label label full) in
  Js.trim g = g ∧ head_out Js.is_space g ∧ no_terminator g.
Proof.
  unfold Js.match_label. destruct (Js.find_ci label full) as [r|]; simpl.
  - split; [apply strip_idem|]. split; [apply strip_head|].
    apply no_terminator_strip, take_line_no_terminator.
  - done.
Qed.

Lemma strip_prefix_ci_cons a p b s :
  Js.strip_prefix_ci (String a p) (String b s)
  = if Ascii.eqb (Js.canonicalize a) (Js.canonicalize b)
    then Js.strip_prefix_ci p s else None.
Proof. reflexivity. Qed.

Lemma find_ci_cons p c s :
  Js.find_ci p (String c s)
  = match Js.strip_prefix_ci p (String c s) with
    | Some r => Some r
    | None => Js.find_ci p s
    end.
Proof. reflexivity. Qed.

Lemma strip_prefix_ci_app p s : Js.strip_prefix_ci p (p +:+ s) = Some s.
Proof.
  induction p as [|a p IH]; [done|].
  rewrite app_cons, strip_prefix_ci_cons. by rewrite Ascii.eqb_refl.
Qed.

Lemma find_ci_here p s r :
  Js.strip_prefix_ci p s = Some r → Js.find_ci p s = Some r.
Proof. intros H. destruct s; simpl; by rewrite H. Qed.

(** The character [c] matches no character of the pattern [p]. *)
Fixpoint ci_out (c : ascii) (p : string) : bool :=
  match p with
  | "" => true
  | String a p' =>
      negb (Ascii.eqb (Js.canonicalize a) (Js.canonicalize c)) && ci_out c p'
  end.

(** A match cannot run over a character that the pattern does not have. *)
Lemma strip_prefix_ci_barrier p :
  ∀ t c y,
    ci_out c p = true →
    is_Some (Js.strip_prefix_ci p (t +:+ String c y)) →
    is_Some (Js.strip_prefix_ci p t).
Proof.
  induction p as [|a p IH]; intros t c y Hc; [done|].
  simpl in Hc. apply andb_true_iff in Hc as [Ha Hc].
  apply negb_true_iff in Ha.
  destruct t as [|b t].
  - rewrite app_nil_l, strip_prefix_ci_cons, Ha. by intros [? ?].
  - rewrite app_cons, !strip_prefix_ci_cons.
    destruct (Ascii.eqb (Js.canonicalize a) (Js.canonicalize b));
      [by apply IH|by intros [? ?]].
Qed.

Lemma find_ci_past p e c y :
  ci_out c p = true → Js.find_ci p e = None →
  Js.find_ci p (e +:+ String c y) = Js.find_ci p y.
Proof.
  intros Hc. induction e as [|x e IH]; intros He.
  - rewrite app_nil_l, find_ci_cons.
    destruct p as [|a p]; [done|].
    simpl in Hc. apply andb_true_iff in Hc as [Ha _].
    apply negb_true_iff in Ha. by rewrite strip_prefix_ci_cons, Ha.
  - rewrite find_ci_cons in He.
    destruct (Js.strip_prefix_ci p (String x e)) eqn:E; [done|].
    rewrite app_cons, find_ci_cons.
    destruct (Js.strip_prefix_ci p (String x (e +:+ String c y))) eqn:E'.
    + assert (is_Some (Js.strip_prefix_ci p (String x e))) as [? ?]; [|congruence].
      apply (strip_prefix_ci_barrier p (String x e) c y Hc).
      rewrite app_cons, E'. by eexists.
    + by apply IH.
Qed.

Lemma lstrip_space_then s t :
  s ≠ "" → head_out Js.is_space s →
  lstrip Js.is_space (" " +:+ s +:+ t) = s +:+ t.
Proof.
  destruct s as [|c s]; [done|]. intros _ Hc. simpl in Hc.
  change (" " +:+ String c s +:+ t) with (String " " (String c (s +:+ t))).
  rewrite app_cons. simpl. change (Js.is_space " ") with true. simpl.
  by rewrite Hc.
Qed.

Lemma header_unfold em nm :
  header em nm
  = "Recipient Email:" +:+ " " +:+ em +:+ String Py.LF ("Prospect Name:" +:+ " " +:+ nm).
Proof. reflexivity. Qed.

Lemma match_label_email em nm rest :
  em ≠ "" → head_out Js.is_space em → no_terminator em →
  Js.match_label "Recipient Email:" (header em nm +:+ rest) = Some em.
Proof.
  intros Hne Hh Hl. unfold Js.match_label.
  rewrite header_unfold, !app_assoc.
  rewrite (find_ci_here _ _ _ (strip_prefix_ci_app _ _)).
  rewrite lstrip_space_then by done. f_equal.
  rewrite app_cons. by apply take_line_app.
Qed.

Lemma find_ci_name_label rest :
  Js.find_ci "Prospect Name:" ("Recipient Email: " +:+ rest)
  = Js.find_ci "Prospect Name:" rest.
Proof. reflexivity. Qed.

Lemma match_label_name em nm c :
  nm ≠ "" → head_out Js.is_space nm → no_terminator nm →
  Js.find_ci "Prospect Name:" em = None →
  Js.match_label "Prospect Name:" (header em nm +:+ DIVIDER +:+ c) = Some nm.
Proof.
  intros Hne Hh Hl He. unfold Js.match_label, header.
  rewrite !app_assoc, find_ci_name_label.
  change (NL +:+ "Prospect Name: " +:+ nm +:+ DIVIDER +:+ c)
    with (String Py.LF ("Prospect Name:" +:+ " " +:+ nm +:+ DIVIDER +:+ c)).
  rewrite find_ci_past by done.
  rewrite (find_ci_here _ _ _ (strip_prefix_ci_app _ _)).
  rewrite lstrip_space_then by done. f_equal.
  rewrite DIVIDER_unfold. by apply take_line_app.
Qed.

End CodecFacts.

(** ** Parsed prospects lie on one line *)

Module ParserLines.
Import Str StrFacts Parser.

Import Codec CodecFacts.

Lemma mem_rev_app c s t :
  mem c (String.rev_app s t) = mem c s || mem c t.
Proof.
  revert t. induction s as [|d s IH]; intros t; [done|].
  simpl String.rev_app. rewrite IH, !mem_cons.
  destruct (Ascii.eqb c d); [by rewrite orb_true_r|done].
Qed.

Lemma mem_rev c s : mem c (String.rev s) = mem c s.
Proof. unfold String.rev. by rewrite mem_rev_app, orb_false_r. Qed.

Lemma mem_LF_cons c s :
  Py.is_linebreak c = false →
  mem Py.LF (String c s) = mem Py.LF s.
Proof.
  intros H. rewrite mem_cons.
  destruct (Ascii.eqb Py.LF c) eqn:E; [|done].
  apply Ascii.eqb_eq in E as <-. done.
Qed.

Lemma splitlines_go_single (s : string) :
  ∀ after_cr cur line,
    single_line cur →
    line ∈ Py.splitlines_go after_cr cur s → single_line line.
Proof.
  unfold single_line.
  induction s as [|c s IH]; intros after_cr cur line Hcur; simpl.
  - destruct (is_empty cur); [by intros ?%elem_of_nil|].
    intros ->%list_elem_of_singleton. by rewrite mem_rev.
  - destruct (after_cr && Ascii.eqb c Py.LF); [by apply IH|].
    destruct (Py.is_linebreak c) eqn:E.
    + intros [->|Hin]%elem_of_cons; [by rewrite mem_rev|].
      by apply (IH (Ascii.eqb c Py.CR) "" line).
    + apply IH. by rewrite mem_LF_cons.
Qed.

Lemma splitlines_single text line :
  line ∈ Py.splitlines text → single_line line.
Proof. by apply splitlines_go_single. Qed.

Lemma mem_strip c sp s : mem c s = false → mem c (strip sp s) = false.
Proof.
  destruct (CutFacts.strip_infix sp s) as (l & r & H). intros Hs.
  rewrite H, !mem_app in Hs.
  apply orb_false_iff in Hs as [_ Hs]. by apply orb_false_iff in Hs as [Hs _].
Qed.

Lemma mem_split1 c sep s part :
  mem c s = false → part ∈ Py.split1 sep s → mem c part = false.
Proof.
  intros Hs. unfold Py.split1.
  destruct (cut (String sep "") s) as [[a b]|] eqn:E.
  - apply cut_Some in E. rewrite E, !mem_app in Hs.
    apply orb_false_iff in Hs as [Ha Hs].
    apply orb_false_iff in Hs as [_ Hb].
    intros [->|Hin]%elem_of_cons; [done|].
    by apply list_elem_of_singleton in Hin as ->.
  - by intros ->%list_elem_of_singleton.
Qed.

Lemma mem_nth_or_empty c i (l : list string) :
  (∀ part, part ∈ l → mem c part = false) →
  mem c (nth_or_empty i l) = false.
Proof.
  intros H. unfold nth_or_empty. destruct (l !! i) as [x|] eqn:E; [|done].
  apply H. by apply list_elem_of_lookup_2 in E.
Qed.

Lemma classify_single line :
  single_line line →
  single_line (classify line).1 ∧ single_line (classify line).2.
Proof.
  unfold single_line, classify. intros H.
  destruct (mem "<" line && mem ">" line).
  - split; simpl.
    + apply mem_strip, mem_nth_or_empty. intros part. by apply mem_split1.
    + apply mem_strip, mem_nth_or_empty. intros part. apply mem_split1.
      apply mem_nth_or_empty. intros part'. by apply mem_split1.
  - destruct (mem "," line); [|done].
    unfold Py.split1.
    destruct (cut "," line) as [[a b]|] eqn:E; [|done]. simpl.
    apply cut_Some in E. rewrite E, !mem_app in H.
    apply orb_false_iff in H as [Ha H]. apply orb_false_iff in H as [_ Hb].
    split; by apply mem_strip.
Qed.

Lemma candidate_single raw p :
  single_line raw → candidate raw = Some p →
  single_line (name p) ∧ single_line (email p).
Proof.
  intros Hraw. unfold candidate.
  destruct (is_empty (Py.strip raw)); [done|].
  destruct (classify_single (Py.strip raw)) as [Hn He].
  { by apply mem_strip. }
  destruct (classify (Py.strip raw)) as [nm em]. simpl in *.
  destruct (negb _ || negb _); [done|].
  intros [= <-]. simpl. split; by apply mem_strip.
Qed.

(** Every prospect of the parsed list has a one-line name and email. *)
Lemma parse_single_line text p :
  p ∈ parse_prospect_lines text →
  single_line (name p) ∧ single_line (email p).
Proof.
  rewrite ParserFacts.parse_keep_unseen. intros Hp.
  pose proof (ParserFacts.keep_unseen_sublist (candidates text) ∅) as Hsub.
  apply (elem_of_sublist _ _ _ Hp) in Hsub.
  unfold candidates in Hsub. apply list_elem_of_omap in Hsub as (raw & Hin & Hc).
  apply (candidate_single raw); [|done]. by apply (splitlines_single text).
Qed.

End ParserLines.

(** C7.  The campaign text of a document without the divider is empty,
    and of a document with one divider it is all the text after it.  With
    a second divider the limit of the split cuts the text short: for
    ["H" + DIVIDER + "a" + DIVIDER + "b"] the text after the first
    divider is ["a" + DIVIDER + "b"], and [getCampaignPrompt] gives
    ["a"]. *)
Theorem getCampaignPrompt_second_divider :
  let doc := "H" +:+ Codec.DIVIDER +:+ "a" +:+ Codec.DIVIDER +:+ "b" in
  Str.cut Codec.DIVIDER doc = Some ("H", "a" +:+ Codec.DIVIDER +:+ "b")
  ∧ Codec.getCampaignPrompt doc = "a"
  ∧ Codec.getCampaignPrompt doc ≠ "a" +:+ Codec.DIVIDER +:+ "b"
  ∧ (∀ full, Str.includes Codec.DIVIDER full = false →
             Codec.getCampaignPrompt full = "")
  ∧ (∀ full h b, Str.cut Codec.DIVIDER full = Some (h, b) →
                 Str.includes Codec.DIVIDER b = false →
                 Codec.getCampaignPrompt full = b).
Proof.
  split; [by vm_compute|]. split; [by vm_compute|]. split; [by vm_compute|].
  split; [apply CodecFacts.getCampaignPrompt_absent|].
  apply CodecFacts.getCampaignPrompt_once.
Qed.




(** Selecting a prospect of the parsed list falls under the statement:
    its name and email lie on one line. *)
Corollary setRecipientLines_parsed_prospect (text full : string) (p : Prospect) :
  p ∈ Parser.parse_prospect_lines text →
  Codec.getCampaignPrompt (Codec.setRecipientLines full (email p) (name p))
  = Js.trim (if Str.includes Codec.DIVIDER full
             then Codec.getCampaignPrompt full
             else Codec.starter).
Proof.
  intros [Hn He]%ParserLines.parse_single_line.
  by apply CodecFacts.setRecipientLines_text.
Qed.

(** The restriction to one line is needed: a name that carries the
    divider takes the place of the campaign text. *)
Example setRecipientLines_divider_in_name :
  Codec.getCampaignPrompt
    (Codec.setRecipientLines
       (Codec.header "a@b.c" "Al" +:+ Codec.DIVIDER +:+ "Hello")
       "x@y.z" ("Bo" +:+ Codec.DIVIDER +:+ "Bye"))
  = "Bye".
Proof. by vm_compute. Qed.




(** ** Template store *)

Module TemplatesFacts.
Import Templates.



End TemplatesFacts.


(** ** Send route *)

Module SendRouteFacts.
Import SendRoute.


End SendRouteFacts.



(** Outside the statement above: when the transfer succeeds and the
    history file cannot be written, the error of the file reaches the
    same handler, and the route answers with it although the mail is
    sent. *)
Example send_history_error_after_transfer :
  (SendRoute.send accepting_relay (Some hello_mail) []).1 = SendRoute.Ok
  ∧ SendRoute.send full_disk (Some hello_mail) []
    = (SendRoute.NotOk "disk full", []).
Proof. by vm_compute. Qed.

(** ** The page *)

Module UiFacts.
Import Ui.

(** From [s] to [s'] the list of prospects is the same and the events
    [new] were added to the trace. *)
Definition ext (s s' : State) (new : list event) : Prop :=
  prospects s' = prospects s ∧ trace s' = trace s ++ new.


Lemma ext_trans s1 s2 s3 a b :
  ext s1 s2 a → ext s2 s3 b → ext s1 s3 (a ++ b).
Proof.
  intros [P1 T1] [P2 T2]. split; [congruence|].
  by rewrite T2, T1, app_assoc.
Qed.

Lemma ext_length s s' new : ext s s' new → length_prospects s' = length_prospects s.
Proof. intros [P _]. unfold length_prospects. by rewrite P. Qed.

Lemma ext_setActive i s : ext s (setActive i s) [].
Proof.
  unfold setActive. destruct (prospect_at _ i); split; simpl;
    by rewrite ?app_nil_r.
Qed.

Lemma ext_set_flag f b s : ext s (set_flag f b s) [].
Proof. split; simpl; by rewrite ?app_nil_r. Qed.

Lemma ext_showBox b t ok s : ext s (showBox b t ok s) [].
Proof. split; simpl; by rewrite ?app_nil_r. Qed.

Lemma ext_tick s : ext s (tick s) [].
Proof. split; simpl; by rewrite ?app_nil_r. Qed.

Lemma ext_stop s : ext s (autoStopBtn_onclick s) [].
Proof.
  unfold autoStopBtn_onclick. destruct (negb _); split; simpl;
    by rewrite ?app_nil_r.
Qed.

Section page.
Variable env : Env.

Lemma ext_await s : ext s (await env s) [].
Proof.
  unfold await.
  assert (H : ext s (if stop_clicked env (clock s)
                     then autoStopBtn_onclick (tick s) else tick s) []).
  { destruct (stop_clicked env (clock s)).
    - apply (ext_trans s (tick s) _ [] []); [apply ext_tick|apply ext_stop].
    - apply ext_tick. }
  destruct (pause_clicked env (clock s)); [|done].
  destruct H as [P T]. split; simpl; [done|]. by rewrite ?app_nil_r in *.
Qed.

Lemma ext_log_await ev s : ext s (await env (log ev s)) [ev].
Proof.
  apply (ext_trans s (log ev s) _ [ev] []); [by split|apply ext_await].
Qed.

Lemma ext_sleep ms s : ext s (sleep env ms s) [Sleep ms].
Proof. apply ext_log_await. Qed.

Lemma ext_loadHistory s : ext s (loadHistory env s) [LoadHistory].
Proof.
  unfold loadHistory. destruct (history_error env (clock s)).
  - apply (ext_trans s (await env (log LoadHistory s)) _ [LoadHistory] []);
      [apply ext_log_await|apply ext_showBox].
  - apply ext_log_await.
Qed.

(** What one call of [generateNow] adds to the trace. *)
Lemma ext_generateNow s :
  ∃ new,
    ext s (generateNow env s).2 new
    ∧ ((generateNow env s).1 = true →
       ∃ p d, new = [Generate p (GenOk d)])
    ∧ ((generateNow env s).1 = false →
       if Str.is_empty (Js.trim (value s c_prompt)) then new = []
       else ∃ p e, new = [Generate p (GenErr e)]).
Proof.
  unfold generateNow.
  change (value (hideBox aiOut s) c_prompt) with (value s c_prompt).
  destruct (Str.is_empty (Js.trim (value s c_prompt))) eqn:E.
  { exists []. split; [by split; simpl; rewrite ?app_nil_r|]. by split. }
  set (s1 := showBox aiOut "Generating..." true (hideBox aiOut s)).
  set (p := Js.trim (value s c_prompt)).
  destruct (generate_reply env (clock s1) p) as [d|e] eqn:R; cbn [fst snd].
  - exists [Generate p (GenOk d)]. split; [|split; [by eauto|done]].
    destruct (ext_log_await (Generate p (GenOk d)) s1) as [P T].
    split; simpl; [done|]. by rewrite T.
  - exists [Generate p (GenErr e)]. split; [|split; [done|by eauto]].
    destruct (ext_log_await (Generate p (GenErr e)) s1) as [P T].
    split; simpl; [done|]. by rewrite T.
Qed.

(** What one call of [sendNow] adds to the trace. *)
Lemma ext_sendNow s :
  ∃ new,
    ext s (sendNow env s).2 new
    ∧ ((sendNow env s).1 = true →
       ∃ t su b, new = [Send t su b SendOk])
    ∧ ((sendNow env s).1 = false →
       if Str.is_empty (Js.trim (value s c_to))
          || Str.is_empty (Js.trim (value s c_subject))
          || Str.is_empty (value s c_body)
       then new = []
       else ∃ t su b e, new = [Send t su b (SendErr e)]).
Proof.
  unfold sendNow.
  change (value (hideBox sendOut s)) with (value s).
  destruct (Str.is_empty (Js.trim (value s c_to))
            || Str.is_empty (Js.trim (value s c_subject))
            || Str.is_empty (value s c_body)) eqn:E.
  { exists []. split; [by split; simpl; rewrite ?app_nil_r|]. by split. }
  set (s1 := showBox sendOut "Sending..." true (hideBox sendOut s)).
  set (t := Js.trim (value s c_to)).
  set (su := Js.trim (value s c_subject)).
  set (b := value s c_body).
  destruct (send_reply env (clock s1) t su b) as [|e] eqn:R; cbn [fst snd].
  - exists [Send t su b SendOk]. split; [|split; [by eauto|done]].
    destruct (ext_log_await (Send t su b SendOk) s1) as [P T].
    split; simpl; [done|]. by rewrite T.
  - exists [Send t su b (SendErr e)]. split; [|split; [done|by eauto 6]].
    destruct (ext_log_await (Send t su b (SendErr e)) s1) as [P T].
    split; simpl; [done|]. by rewrite T.
Qed.

End page.

(** *** The trace of a run of the queue *)

Lemma count_app P a b : count P (a ++ b) = (count P a + count P b)%Z.
Proof. induction a as [|ev a IH]; simpl; [done|]. rewrite IH. lia. Qed.





Lemma strip_cons_nonempty sp c s :
  sp c = false → Str.is_empty (Str.strip sp (String c s)) = false.
Proof.
  intros H. unfold Str.strip. simpl. rewrite H. simpl.
  destruct (Str.rstrip sp s); [by rewrite H|done].
Qed.

Lemma prospect_at_Some s i :
  (0 ≤ i < length_prospects s)%Z → is_Some (prospect_at s i).
Proof.
  unfold prospect_at, length_prospects. intros [H0 H1].
  destruct (i <? 0)%Z eqn:E; [lia|]. apply lookup_lt_is_Some. lia.
Qed.


(** Chains the facts [ext] of the context from the first state to the
    last. *)
Ltac ext_solve :=
  unfold ext in *; destruct_and?; split;
  [ simpl; congruence
  | simpl;
    repeat match goal with
           | H : trace ?x = _ |- context [trace ?x] => rewrite H
           end;
    simpl; by rewrite <- ?(assoc_L (++)), ?app_nil_r ].


Section queue.
Variable env : Env.


Lemma ext_sleep_showBox b t ok ms s :
  ext s (sleep env ms (showBox b t ok s)) [Sleep ms].
Proof.
  apply (ext_trans s (showBox b t ok s) _ [] [Sleep ms]);
    [apply ext_showBox|apply ext_sleep].
Qed.



(** The number of prospects from [i] on is enough for the loop: more
    rounds than that are never made. *)
Lemma auto_loop_remaining_enough maxSends delaySec remaining :
  ∀ extra sentCount i s,
    (length_prospects s - i ≤ Z.of_nat remaining)%Z →
    auto_loop env (remaining + extra) maxSends delaySec sentCount i s
    = auto_loop env remaining maxSends delaySec sentCount i s.
Proof.
  induction remaining as [|remaining IH]; intros extra sentCount i s Hlen.
  { destruct extra as [|extra]; [done|]. cbn [Nat.add auto_loop].
    assert ((i <? length_prospects s)%Z = false) as -> by (apply Z.ltb_ge; lia).
    by rewrite andb_false_r. }
  cbn [Nat.add auto_loop].
  destruct (flag s autoRunning && negb (flag s autoStopRequested)
            && (sentCount <? maxSends)%Z && (i <? length_prospects s)%Z);
    [|done].
  set (s1 := showBox autoOut (working (setActive i s) i) true (setActive i s)).
  assert (E1 : ext s s1 []).
  { apply (ext_trans s (setActive i s) s1 [] []);
      [apply ext_setActive|apply ext_showBox]. }
  destruct (ext_generateNow env s1) as (g & Eg & _).
  destruct (generateNow env s1) as [ok s2]. cbn [fst snd] in *.
  destruct ok; [|done]. cbn [negb].
  destruct (Str.is_empty (Js.trim (value s2 c_to))
            || Str.is_empty (Js.trim (value s2 c_subject))
            || Str.is_empty (Js.trim (value s2 c_body))); [done|].
  destruct (ext_sendNow env s2) as (sd & Es & _).
  destruct (sendNow env s2) as [sent s3]. cbn [fst snd] in *.
  pose proof (ext_loadHistory env s3) as El.
  set (s4 := loadHistory env s3) in *.
  destruct sent; [|done]. cbn [negb].
  destruct (sentCount + 1 >=? maxSends)%Z; [done|].
  destruct (i >=? length_prospects s4 - 1)%Z; [done|].
  apply IH.
  match goal with
  | |- context [length_prospects ?x] => set (s5 := x)
  end.
  assert (E5 : ext s4 s5 [Sleep (delaySec * 1000)]) by apply ext_sleep_showBox.
  apply ext_length in E1, Eg, Es, El, E5. lia.
Qed.

End queue.

Section run.
Variable env : Env.








End run.

(** *** Play Mode *)

Section play.
Variable env : Env.

(** The cursor and the form are the same in [s] and [s']. *)
Definition same_page (s s' : State) : Prop :=
  activeIndex s' = activeIndex s ∧ value s' = value s.

Lemma same_page_await s : same_page s (await env s).
Proof.
  unfold await, autoStopBtn_onclick.
  destruct (stop_clicked env (clock s)), (pause_clicked env (clock s));
    try destruct (negb (flag (tick s) autoRunning)); by split.
Qed.

Lemma same_page_sendNow s : same_page s (sendNow env s).2.
Proof.
  unfold sendNow.
  destruct (Str.is_empty _ || Str.is_empty _ || Str.is_empty _); [by split|].
  match goal with
  | |- context [await env ?x] =>
      destruct (same_page_await x) as [A V]; set (s1 := x) in *
  end.
  destruct (send_reply env _ _ _ _); by split.
Qed.

Lemma same_page_loadHistory s : same_page s (loadHistory env s).
Proof.
  unfold loadHistory.
  destruct (same_page_await (log LoadHistory s)) as [A V].
  destruct (history_error env (clock s)); by split.
Qed.

(** The generate step on a selected prospect: one request with the
    trimmed prompt, and the approval is awaited when it succeeds. *)
Lemma startCycle_selected s :
  prospects s ≠ [] →
  (0 ≤ activeIndex s)%Z →
  Str.is_empty (Js.trim (value s c_prompt)) = false →
  let s' := startCycleForCurrentProspect env s in
  activeIndex s' = activeIndex s
  ∧ ∃ reply,
      trace s' = trace s ++ [Generate (Js.trim (value s c_prompt)) reply]
      ∧ flag s' awaitingApproval = reply_ok reply.
Proof.
  intros Hp Hi Hprompt. unfold startCycleForCurrentProspect.
  destruct (prospects s) as [|p0 ps]; [done|].
  assert ((activeIndex s <? 0)%Z = false) as -> by (apply Z.ltb_ge; lia).
  unfold generateNow.
  change (value (hideBox aiOut (set_flag awaitingApproval false s)) c_prompt)
    with (value s c_prompt).
  rewrite Hprompt.
  match goal with
  | |- context [await env ?x] =>
      destruct (same_page_await x) as [A V];
      destruct (ext_await env x) as [_ T]; set (s1 := x) in *
  end.
  match goal with
  | |- context [generate_reply env ?k ?p] => set (reply := generate_reply env k p)
  end.
  assert (T' : trace (await env s1)
               = trace s ++ [Generate (Js.trim (value s c_prompt)) reply]).
  { rewrite T. subst s1. simpl. by rewrite app_nil_r. }
  clearbody reply. destruct reply as [d|e]; cbn [negb].
  - split; [exact A|]. exists (GenOk d). by split.
  - split; [exact A|]. exists (GenErr e). by split.
Qed.

Lemma setActive_selected s i p :
  prospect_at s i = Some p →
  activeIndex (setActive i s) = i
  ∧ value (setActive i s) c_prompt
    = Codec.setRecipientLines (value s c_prompt) (email p) (name p).
Proof.
  intros H. unfold setActive.
  change (prospect_at (set_activeIndex i s) i) with (prospect_at s i).
  by rewrite H.
Qed.

End play.

End UiFacts.



(** C5.  When an approval is awaited, the approved send succeeds and
    Play Mode is still on after it, the approval stops Play Mode without
    error at the last prospect, and otherwise moves the cursor by exactly
    one and runs the generate step once, for the next prospect. *)
Theorem approve_auto_advance (env : Ui.Env) (s : Ui.State) :
  Ui.flag s Ui.awaitingApproval = true →
  (Ui.sendNow env s).1 = true →
  Ui.flag (Ui.loadHistory env (Ui.sendNow env s).2) Ui.playRunning = true →
  (-1 ≤ Ui.activeIndex s)%Z →
  approve_outcome env s.
Proof.
  intros Haw Hsent Hplay Hidx.
  unfold approve_outcome, Ui.approveSendBtn_onclick. rewrite Haw. cbn [negb].
  destruct (UiFacts.ext_sendNow env s) as (sd & Es & Hst & _).
  destruct (UiFacts.same_page_sendNow env s) as [A1 V1].
  destruct (Ui.sendNow env s) as [sent s1]. cbn [fst snd] in *. subst sent.
  destruct (Hst eq_refl) as (t & su & b & ->). clear Hst. cbn [negb].
  pose proof (UiFacts.ext_loadHistory env s1) as El.
  destruct (UiFacts.same_page_loadHistory env s1) as [A2 V2].
  set (s2 := Ui.loadHistory env s1) in *.
  change (Ui.flag (Ui.set_flag Ui.awaitingApproval false s2) Ui.playRunning)
    with (Ui.flag s2 Ui.playRunning).
  rewrite Hplay. cbn [negb].
  set (s3 := Ui.set_flag Ui.awaitingApproval false s2).
  assert (E3 : UiFacts.ext s s3 [Ui.Send t su b Ui.SendOk; Ui.LoadHistory]).
  { subst s3. UiFacts.ext_solve. }
  assert (A3 : Ui.activeIndex s3 = Ui.activeIndex s) by (simpl; congruence).
  assert (V3 : Ui.value s3 = Ui.value s) by (simpl; congruence).
  rewrite A3, (UiFacts.ext_length _ _ _ E3).
  destruct (Ui.activeIndex s >=? Ui.length_prospects s - 1)%Z eqn:Hlast.
  - split; [exact A3|]. split; [done|]. split; [done|]. split; [done|].
    exists t, su, b. by destruct E3.
  - rewrite Z.geb_leb in Hlast. apply Z.leb_gt in Hlast.
    destruct (UiFacts.prospect_at_Some s3 (Ui.activeIndex s + 1))
      as [next Hnext].
    { rewrite (UiFacts.ext_length _ _ _ E3). lia. }
    destruct (UiFacts.setActive_selected s3 _ _ Hnext) as [A4 V4].
    pose proof (UiFacts.ext_setActive (Ui.activeIndex s + 1) s3) as E4.
    set (s4 := Ui.setActive (Ui.activeIndex s + 1) s3) in *.
    destruct (UiFacts.startCycle_selected env s4) as (A5 & reply & T5 & F5).
    + destruct E4 as [P4 _], E3 as [P3 _]. rewrite P4.
      unfold Ui.prospect_at in Hnext.
      destruct (Ui.activeIndex s + 1 <? 0)%Z; [done|].
      intros Hnil. by rewrite Hnil in Hnext.
    + lia.
    + rewrite V4. apply (UiFacts.strip_cons_nonempty Js.is_space "R"). done.
    + split; [congruence|].
      exists next, t, su, b, reply. split; [|split; [|exact F5]].
      * unfold Ui.prospect_at in *. destruct E3 as [P3 _].
        by rewrite P3 in Hnext.
      * rewrite T5, V4, V3. destruct E4 as [_ T4], E3 as [_ T3].
        rewrite T4, T3. by rewrite ?app_nil_r, <- ?(assoc_L (++)).
Qed.

Lemma approve_auto_advance_witness : approve_outcome play_env play_state.
Proof.
  apply (approve_auto_advance play_env play_state); by vm_compute.
Defined.

(** ** Scenarios of the queue *)

(** Two sends of three prospects: the run ends on the maximum with the
    cursor on the second prospect, after one wait of two seconds. *)
Example queue_two_of_three :
  let r := Ui.runFullAutomationQueue play_env queue_state in
  r.1 = (Ui.ReachedMax, 2%Z)
  ∧ Ui.activeIndex r.2 = 1%Z
  ∧ Ui.sends (Ui.trace r.2) = 2%Z
  ∧ filter (λ ev, Ui.request ev = false) (Ui.trace r.2)
    = [Ui.LoadHistory; Ui.Sleep 2000; Ui.LoadHistory]
  ∧ Ui.box r.2 Ui.autoOut
    = {| Ui.text := "Done. Sent 2. (Reached max sends)"; Ui.good := true |}.
Proof. by vm_compute. Qed.

(** A generation that fails on the first prospect: nothing is sent. *)
Example queue_generation_fails :
  let r := Ui.runFullAutomationQueue failing_generation queue_state in
  r.1 = (Ui.GenerationFailed, 0%Z)
  ∧ Ui.sends (Ui.trace r.2) = 0%Z
  ∧ List.length (Ui.trace r.2) = 1
  ∧ Ui.box r.2 Ui.autoOut
    = {| Ui.text := "Stopped. Generation failed."; Ui.good := false |}.
Proof. by vm_compute. Qed.

(** A send that fails on the first of three prospects: one send is tried
    and the two other prospects are left alone. *)
Example queue_send_fails :
  let r := Ui.runFullAutomationQueue failing_send queue_state in
  r.1 = (Ui.SendFailed, 0%Z)
  ∧ Ui.activeIndex r.2 = 0%Z
  ∧ Ui.sends (Ui.trace r.2) = 1%Z
  ∧ Ui.sends_ok (Ui.trace r.2) = 0%Z
  ∧ Ui.box r.2 Ui.autoOut
    = {| Ui.text := "Stopped. Send failed."; Ui.good := false |}.
Proof. by vm_compute. Qed.

(** * Further properties of the code *)

(** ** Prospect list parser: what a parsed prospect looks like *)

Module ParserShape.
Import Str StrFacts Parser.

Lemma mem_break_cons k c s :
  Py.is_linebreak k = true → Py.is_linebreak c = false →
  mem k (String c s) = mem k s.
Proof.
  intros Hk Hc. rewrite mem_cons.
  destruct (Ascii.eqb k c) eqn:E; [|done].
  apply Ascii.eqb_eq in E as <-. congruence.
Qed.

(** A line of [splitlines] holds none of the line boundaries. *)
Lemma splitlines_go_no_break k (s : string) :
  Py.is_linebreak k = true →
  ∀ after_cr cur line,
    mem k cur = false →
    line ∈ Py.splitlines_go after_cr cur s → mem k line = false.
Proof.
  intros Hk.
  induction s as [|c s IH]; intros after_cr cur line Hcur; simpl.
  - destruct (is_empty cur); [by intros ?%elem_of_nil|].
    intros ->%list_elem_of_singleton. by rewrite ParserLines.mem_rev.
  - destruct (after_cr && Ascii.eqb c Py.LF); [by apply IH|].
    destruct (Py.is_linebreak c) eqn:E.
    + intros [->|Hin]%elem_of_cons; [by rewrite ParserLines.mem_rev|].
      by apply (IH (Ascii.eqb c Py.CR) "" line).
    + apply IH. by rewrite mem_break_cons.
Qed.

Lemma classify_no_break k line :
  mem k line = false →
  mem k (classify line).1 = false ∧ mem k (classify line).2 = false.
Proof.
  unfold classify. intros H.
  destruct (mem "<" line && mem ">" line).
  - split; simpl.
    + apply ParserLines.mem_strip, ParserLines.mem_nth_or_empty.
      intros part. by apply ParserLines.mem_split1.
    + apply ParserLines.mem_strip, ParserLines.mem_nth_or_empty.
      intros part. apply ParserLines.mem_split1.
      apply ParserLines.mem_nth_or_empty. intros part'.
      by apply ParserLines.mem_split1.
  - destruct (mem "," line); [|done].
    unfold Py.split1.
    destruct (cut "," line) as [[a b]|] eqn:E; [|done]. simpl.
    apply cut_Some in E. rewrite E, !mem_app in H.
    apply orb_false_iff in H as [Ha H]. apply orb_false_iff in H as [_ Hb].
    split; by apply ParserLines.mem_strip.
Qed.

Lemma candidate_no_break k raw p :
  mem k raw = false → candidate raw = Some p →
  mem k (name p) = false ∧ mem k (email p) = false.
Proof.
  intros Hraw. unfold candidate.
  destruct (is_empty (Py.strip raw)); [done|].
  destruct (classify_no_break k (Py.strip raw)) as [Hn He].
  { by apply ParserLines.mem_strip. }
  destruct (classify (Py.strip raw)) as [nm em]. simpl in *.
  destruct (negb _ || negb _); [done|].
  intros [= <-]. simpl. split; by apply ParserLines.mem_strip.
Qed.

(** A candidate has passed the test on its email, and its two fields are
    stripped. *)
Lemma candidate_valid raw p :
  candidate raw = Some p →
  mem "@" (email p) = true ∧ mem "." (email p) = true
  ∧ Py.strip (email p) = email p ∧ Py.strip (name p) = name p.
Proof.
  unfold candidate. destruct (is_empty (Py.strip raw)); [done|].
  destruct (classify (Py.strip raw)) as [nm em].
  destruct (mem "@" (Py.strip em)) eqn:E1; [|done].
  destruct (mem "." (Py.strip em)) eqn:E2; [|done]. simpl.
  intros [= <-]. simpl. unfold Py.strip in *.
  by rewrite !strip_idem.
Qed.

Lemma parsed_is_candidate text p :
  p ∈ parse_prospect_lines text →
  ∃ raw, raw ∈ Py.splitlines text ∧ candidate raw = Some p.
Proof.
  rewrite ParserFacts.parse_keep_unseen. intros Hp.
  pose proof (ParserFacts.keep_unseen_sublist (candidates text) ∅) as Hsub.
  apply (elem_of_sublist _ _ _ Hp) in Hsub.
  unfold candidates in Hsub. by apply list_elem_of_omap in Hsub.
Qed.

End ParserShape.

(** X1.  Every prospect that the parser returns has an email that holds
    an at sign and a dot, so a non-empty one, and its email and name are
    stripped of surrounding white space. *)
Theorem parsed_prospect_valid (text : string) (p : Prospect) :
  p ∈ Parser.parse_prospect_lines text →
  email p ≠ ""
  ∧ Str.mem "@" (email p) = true
  ∧ Str.mem "." (email p) = true
  ∧ Py.strip (email p) = email p
  ∧ Py.strip (name p) = name p.
Proof.
  intros (raw & _ & Hc)%ParserShape.parsed_is_candidate.
  destruct (ParserShape.candidate_valid raw p Hc) as (H1 & H2 & H3 & H4).
  split; [|done]. intros E. by rewrite E in H1.
Qed.

Lemma parsed_prospect_valid_witness :
  email {| name := "Jane"; email := "jane@biz.com" |} ≠ "".
Proof.
  destruct (parsed_prospect_valid "Jane <jane@biz.com>"
              {| name := "Jane"; email := "jane@biz.com" |}) as [H _];
    [|exact H].
  apply list_elem_of_In. vm_compute. by left.
Defined.

(** X2.  No name and no email of a parsed prospect holds a line boundary
    of [splitlines]: a line feed, a carriage return or one of the other
    separators. *)
Theorem parsed_prospect_one_line (text : string) (p : Prospect) (k : ascii) :
  p ∈ Parser.parse_prospect_lines text →
  Py.is_linebreak k = true →
  Str.mem k (name p) = false ∧ Str.mem k (email p) = false.
Proof.
  intros (raw & Hin & Hc)%ParserShape.parsed_is_candidate Hk.
  apply (ParserShape.candidate_no_break k raw p); [|done].
  by apply (ParserShape.splitlines_go_no_break k text Hk false "" raw).
Qed.

Lemma parsed_prospect_one_line_witness :
  Str.mem Py.CR (name {| name := "Jane"; email := "jane@biz.com" |}) = false.
Proof.
  destruct (parsed_prospect_one_line "Jane <jane@biz.com>"
              {| name := "Jane"; email := "jane@biz.com" |} Py.CR) as [H _];
    [|done|exact H].
  apply list_elem_of_In. vm_compute. by left.
Defined.

(** ** Template store: uniqueness, last save, delete *)

Module TemplateStoreFacts.
Import Templates.

Lemma name_matches_key n t :
  name_matches n t = bool_decide (name_key t = Py.lower n).
Proof. reflexivity. Qed.

Lemma strip_strip s : Py.strip (Py.strip s) = Py.strip s.
Proof. apply StrFacts.strip_idem. Qed.

(** The template written by an overwrite, and the one put in front. *)
Definition written (n p : string) (t : template) : template :=
  <["prompt" := p]> (<["name" := n]> t).

Definition fresh (n p : string) : template :=
  <["name" := n]> (<["prompt" := p]> ∅).

Lemma written_name n p t : written n p t !! "name" = Some n.
Proof.
  unfold written. rewrite lookup_insert_ne by done. apply lookup_insert_eq.
Qed.

Lemma written_prompt n p t : written n p t !! "prompt" = Some p.
Proof. apply lookup_insert_eq. Qed.

Lemma fresh_name n p : fresh n p !! "name" = Some n.
Proof. apply lookup_insert_eq. Qed.

Lemma fresh_prompt n p : fresh n p !! "prompt" = Some p.
Proof.
  unfold fresh. rewrite lookup_insert_ne by done. apply lookup_insert_eq.
Qed.

Lemma written_key n p t :
  Py.strip n = n → name_key (written n p t) = Py.lower n.
Proof.
  intros H. unfold name_key, get_or_empty. by rewrite written_name, H.
Qed.

Lemma fresh_key n p : Py.strip n = n → name_key (fresh n p) = Py.lower n.
Proof.
  intros H. unfold name_key, get_or_empty. by rewrite fresh_name, H.
Qed.

Lemma written_written n p1 p2 t :
  written n p2 (written n p1 t) = written n p2 t.
Proof.
  unfold written. apply map_eq. intros k.
  destruct (decide (k = "prompt")) as [->|Hp].
  { by rewrite !lookup_insert_eq. }
  rewrite !(lookup_insert_ne _ "prompt") by done.
  destruct (decide (k = "name")) as [->|Hn].
  { by rewrite ?lookup_insert_eq, ?(lookup_insert_ne _ "prompt"),
      ?lookup_insert_eq by done. }
  by rewrite !lookup_insert_ne by done.
Qed.

Lemma written_fresh n p1 p2 : written n p2 (fresh n p1) = fresh n p2.
Proof.
  unfold written, fresh. apply map_eq. intros k.
  destruct (decide (k = "prompt")) as [->|Hp].
  { rewrite lookup_insert_eq, lookup_insert_ne by done.
    by rewrite lookup_insert_eq. }
  rewrite !(lookup_insert_ne _ "prompt") by done.
  destruct (decide (k = "name")) as [->|Hn].
  { by rewrite ?lookup_insert_eq, ?(lookup_insert_ne _ "prompt"),
      ?lookup_insert_eq by done. }
  by rewrite !lookup_insert_ne by done.
Qed.

(** The overwrite keeps the keys of the list; without a match the key of
    the name is not in the list. *)
Lemma update_first_keys n p (items : list template) :
  Py.strip n = n →
  ∀ items', update_first n p items = Some items' →
            name_key <$> items' = name_key <$> items.
Proof.
  intros Hn. induction items as [|t items IH]; intros items'; [done|].
  simpl. rewrite name_matches_key. case_bool_decide as Ht.
  - intros [= <-]. rewrite !fmap_cons. f_equal.
    fold (written n p t). by rewrite written_key.
  - destruct (update_first n p items) as [r|]; [|done]. simpl.
    intros [= <-]. rewrite !fmap_cons. f_equal. by apply IH.
Qed.

Lemma update_first_None n p (items : list template) :
  update_first n p items = None → Py.lower n ∉ name_key <$> items.
Proof.
  induction items as [|t items IH]; [intros _; apply not_elem_of_nil|].
  cbn [update_first]. rewrite name_matches_key. case_bool_decide as Ht; [done|].
  destruct (update_first n p items) as [r|]; [done|]. intros _.
  rewrite fmap_cons. apply not_elem_of_cons. split; [congruence|by apply IH].
Qed.

(** A second save under the same name overwrites what the first wrote. *)
Lemma update_first_again n p1 p2 (items : list template) :
  Py.strip n = n →
  ∀ items', update_first n p1 items = Some items' →
            update_first n p2 items' = update_first n p2 items.
Proof.
  intros Hn. induction items as [|t items IH]; intros items'; [done|].
  simpl. rewrite !name_matches_key. case_bool_decide as Ht.
  - intros [= <-]. simpl. rewrite name_matches_key.
    fold (written n p1 t). rewrite written_key by done.
    rewrite bool_decide_eq_true_2 by done.
    fold (written n p2 (written n p1 t)) (written n p2 t).
    by rewrite written_written.
  - destruct (update_first n p1 items) as [r|] eqn:E; [|done]. simpl.
    intros [= <-]. simpl. rewrite name_matches_key.
    rewrite bool_decide_eq_false_2 by done.
    by rewrite (IH r).
Qed.

(** Whether a name is found does not depend on the prompt. *)
Lemma update_first_some n p1 p2 (items : list template) :
  ∀ r, update_first n p1 items = Some r →
       ∃ r2, update_first n p2 items = Some r2.
Proof.
  induction items as [|t items IH]; intros r; [done|].
  cbn [update_first]. destruct (name_matches n t); [by eauto|].
  destruct (update_first n p1 items) as [r1|]; [|done]. intros _.
  destruct (IH r1 eq_refl) as [r2 ->]. by eauto.
Qed.

Lemma update_first_filter n p (items : list template) :
  Py.strip n = n →
  ∀ items', update_first n p items = Some items' →
            filter (λ t, name_key t ≠ Py.lower n) items'
            = filter (λ t, name_key t ≠ Py.lower n) items.
Proof.
  intros Hn. induction items as [|t items IH]; intros items'; [done|].
  simpl. rewrite name_matches_key. case_bool_decide as Ht.
  - intros [= <-]. fold (written n p t).
    rewrite !filter_cons. rewrite decide_False.
    2:{ intros H. apply H. by apply written_key. }
    by rewrite decide_False by (intros H; by apply H).
  - destruct (update_first n p items) as [r|] eqn:E; [|done]. simpl.
    intros [= <-]. rewrite !filter_cons. rewrite (IH r) by done. done.
Qed.

Lemma update_first_find n p (items : list template) :
  Py.strip n = n →
  ∀ items', update_first n p items = Some items' →
            ∃ t, find_by_name n items' = Some (written n p t).
Proof.
  intros Hn. induction items as [|t items IH]; intros items'; [done|].
  simpl. rewrite name_matches_key. case_bool_decide as Ht.
  - intros [= <-]. exists t. unfold find_by_name. simpl.
    fold (written n p t). rewrite written_name.
    by rewrite bool_decide_eq_true_2.
  - destruct (update_first n p items) as [r|] eqn:E; [|done]. simpl.
    intros [= <-]. destruct (IH r eq_refl) as [u Hu]. exists u.
    unfold find_by_name in *. simpl.
    rewrite bool_decide_eq_false_2; [done|].
    intros Hname. apply Ht. unfold name_key, get_or_empty.
    by rewrite Hname, Hn.
Qed.

Lemma upsert_success name p st :
  Py.strip name ≠ "" → Py.strip p ≠ "" →
  upsert_template name p st
  = let items' :=
      match update_first (Py.strip name) (Py.strip p) (load_templates st) with
      | Some r => r
      | None => fresh (Py.strip name) (Py.strip p) :: load_templates st
      end in
    (Returned items', Some items').
Proof.
  intros Hn Hp. unfold upsert_template.
  destruct (Py.strip name) eqn:En; [done|].
  destruct (Py.strip p) eqn:Ep; [done|]. done.
Qed.

Lemma upsert_failure name p st :
  Py.strip name = "" ∨ Py.strip p = "" →
  ∃ msg, upsert_template name p st = (ValueError msg, st).
Proof.
  unfold upsert_template. intros [->|H]; [by eexists|].
  destruct (Str.is_empty (Py.strip name)); [by eexists|].
  rewrite H. by eexists.
Qed.

Lemma blank_or_not s : s = "" ∨ s ≠ "".
Proof. destruct s; [by left|by right]. Qed.

End TemplateStoreFacts.

(** X3.  Saving a template keeps the names of the store distinct, case
    and surrounding white space ignored: if no two stored templates have
    the same key before, none do after, whether the save overwrites,
    inserts or fails. *)
Theorem upsert_template_unique (name campaign_prompt : string)
    (st : Templates.store) :
  NoDup (Templates.name_key <$> Templates.load_templates st) →
  NoDup (Templates.name_key
           <$> Templates.load_templates
                 (Templates.upsert_template name campaign_prompt st).2).
Proof.
  intros Hnd.
  destruct (TemplateStoreFacts.blank_or_not (Py.strip name)) as [Hn|Hn].
  { destruct (TemplateStoreFacts.upsert_failure name campaign_prompt st)
      as [msg ->]; [by left|done]. }
  destruct (TemplateStoreFacts.blank_or_not (Py.strip campaign_prompt))
    as [Hp|Hp].
  { destruct (TemplateStoreFacts.upsert_failure name campaign_prompt st)
      as [msg ->]; [by right|done]. }
  rewrite TemplateStoreFacts.upsert_success by done. cbn [snd].
  unfold Templates.load_templates at 1.
  destruct (Templates.update_first _ _ _) as [r|] eqn:E.
  - rewrite (TemplateStoreFacts.update_first_keys _ _ _
               (TemplateStoreFacts.strip_strip name) r E). done.
  - rewrite fmap_cons. constructor; [|done].
    rewrite TemplateStoreFacts.fresh_key
      by apply TemplateStoreFacts.strip_strip.
    by apply TemplateStoreFacts.update_first_None in E.
Qed.

Lemma upsert_template_unique_witness :
  NoDup (Templates.name_key
           <$> Templates.load_templates
                 (Templates.upsert_template "Intro" "Say hello" None).2).
Proof.
  apply (upsert_template_unique "Intro" "Say hello" None). constructor.
Defined.

(** X4.  Saving twice under the same name, the second time with a prompt
    that is not blank, leaves what the second save alone would leave: the
    second prompt replaces the first at the same place and no second
    template is added. *)
Theorem upsert_template_last_wins (name p1 p2 : string)
    (st : Templates.store) :
  Py.strip p2 ≠ "" →
  Templates.upsert_template name p2
    (Templates.upsert_template name p1 st).2
  = Templates.upsert_template name p2 st.
Proof.
  intros Hp2.
  destruct (TemplateStoreFacts.blank_or_not (Py.strip name)) as [Hn|Hn].
  { destruct (TemplateStoreFacts.upsert_failure name p1 st)
      as [msg ->]; [by left|done]. }
  destruct (TemplateStoreFacts.blank_or_not (Py.strip p1)) as [Hp1|Hp1].
  { destruct (TemplateStoreFacts.upsert_failure name p1 st)
      as [msg ->]; [by right|done]. }
  rewrite (TemplateStoreFacts.upsert_success name p1) by done. cbn [snd].
  rewrite !TemplateStoreFacts.upsert_success by done.
  unfold Templates.load_templates at 1.
  pose proof (TemplateStoreFacts.strip_strip name) as Hs.
  destruct (Templates.update_first (Py.strip name) (Py.strip p1) _)
    as [r|] eqn:E.
  - rewrite (TemplateStoreFacts.update_first_again _ _ (Py.strip p2) _ Hs r E).
    destruct (TemplateStoreFacts.update_first_some (Py.strip name)
                (Py.strip p1) (Py.strip p2) _ r E) as [r2 ->]. done.
  - cbn [Templates.update_first].
    rewrite TemplateStoreFacts.name_matches_key.
    rewrite TemplateStoreFacts.fresh_key by done.
    rewrite bool_decide_eq_true_2 by done.
    fold (TemplateStoreFacts.written (Py.strip name) (Py.strip p2)
            (TemplateStoreFacts.fresh (Py.strip name) (Py.strip p1))).
    rewrite TemplateStoreFacts.written_fresh.
    destruct (Templates.update_first (Py.strip name) (Py.strip p2) _)
      as [r2|] eqn:E2; [|done].
    apply TemplateStoreFacts.update_first_None in E.
    rewrite <- (TemplateStoreFacts.update_first_keys _ _ _ Hs r2 E2) in E.
    pose proof (TemplateStoreFacts.update_first_find _ _ _ Hs r2 E2)
      as [t Ht].
    exfalso. apply E. unfold Templates.find_by_name in Ht.
    apply find_some in Ht as [Hin _].
    apply list_elem_of_fmap. exists (TemplateStoreFacts.written
                                      (Py.strip name) (Py.strip p2) t).
    split; [by rewrite TemplateStoreFacts.written_key|].
    by apply list_elem_of_In.
Qed.

Lemma upsert_template_last_wins_witness :
  Templates.upsert_template "Intro" "Second"
    (Templates.upsert_template "Intro" "First" None).2
  = Templates.upsert_template "Intro" "Second" None.
Proof.
  by apply (upsert_template_last_wins "Intro" "First" "Second" None).
Defined.

(** X5.  Deleting a name removes every template with that name, case and
    surrounding white space ignored, keeps every other template in its
    order, writes the list it returns, and changes nothing when done a
    second time. *)
Theorem delete_template_spec (name : string) (st : Templates.store) :
  let items := Templates.load_templates st in
  let r := Templates.delete_template name st in
  let key := Py.lower (Py.strip name) in
  sublist r.1 items
  ∧ (∀ t, t ∈ r.1 ↔ t ∈ items ∧ Templates.name_key t ≠ key)
  ∧ r.2 = Some r.1
  ∧ Templates.delete_template name r.2 = r.
Proof.
  intros items r key. subst r. unfold Templates.delete_template.
  fold items key. cbn [fst snd].
  split; [apply sublist_filter|].
  split; [intros t; rewrite list_elem_of_filter; tauto|].
  split; [done|].
  unfold Templates.save_templates, Templates.load_templates.
  by rewrite list_filter_filter_l by done.
Qed.

(** X6.  Deleting a name right after saving under it gives what deleting
    alone would have given: the saved template is gone with every other
    template of that name. *)
Theorem delete_after_upsert (name campaign_prompt : string)
    (st : Templates.store) :
  Templates.delete_template name
    (Templates.upsert_template name campaign_prompt st).2
  = Templates.delete_template name st.
Proof.
  destruct (TemplateStoreFacts.blank_or_not (Py.strip name)) as [Hn|Hn].
  { destruct (TemplateStoreFacts.upsert_failure name campaign_prompt st)
      as [msg ->]; [by left|done]. }
  destruct (TemplateStoreFacts.blank_or_not (Py.strip campaign_prompt))
    as [Hp|Hp].
  { destruct (TemplateStoreFacts.upsert_failure name campaign_prompt st)
      as [msg ->]; [by right|done]. }
  rewrite TemplateStoreFacts.upsert_success by done. cbn [snd].
  unfold Templates.delete_template.
  pose proof (TemplateStoreFacts.strip_strip name) as Hs.
  destruct (Templates.update_first _ _ _) as [r|] eqn:E;
    change (Templates.load_templates (Some ?x)) with x.
  - by rewrite (TemplateStoreFacts.update_first_filter _ _ _ Hs r E).
  - rewrite filter_cons, decide_False; [done|].
    intros H. apply H. by apply TemplateStoreFacts.fresh_key.
Qed.

(** X7.  After a save that succeeds, the page finds by the trimmed name a
    template that holds exactly that name and the trimmed prompt. *)
Theorem upsert_then_find (name campaign_prompt : string)
    (st : Templates.store) (items : list (gmap string string)) :
  (Templates.upsert_template name campaign_prompt st).1
  = Templates.Returned items →
  ∃ t, Templates.find_by_name (Py.strip name) items = Some t
       ∧ t !! "name" = Some (Py.strip name)
       ∧ t !! "prompt" = Some (Py.strip campaign_prompt).
Proof.
  destruct (TemplateStoreFacts.blank_or_not (Py.strip name)) as [Hn|Hn].
  { destruct (TemplateStoreFacts.upsert_failure name campaign_prompt st)
      as [msg ->]; [by left|done]. }
  destruct (TemplateStoreFacts.blank_or_not (Py.strip campaign_prompt))
    as [Hp|Hp].
  { destruct (TemplateStoreFacts.upsert_failure name campaign_prompt st)
      as [msg ->]; [by right|done]. }
  rewrite TemplateStoreFacts.upsert_success by done. cbn [fst].
  pose proof (TemplateStoreFacts.strip_strip name) as Hs.
  destruct (Templates.update_first _ _ _) as [r|] eqn:E; intros [= <-].
  - destruct (TemplateStoreFacts.update_first_find _ _ _ Hs r E) as [t Ht].
    eexists. split; [exact Ht|].
    by rewrite TemplateStoreFacts.written_name,
      TemplateStoreFacts.written_prompt.
  - eexists. split.
    + unfold Templates.find_by_name. cbn [find].
      rewrite TemplateStoreFacts.fresh_name.
      by rewrite bool_decide_eq_true_2.
    + by rewrite TemplateStoreFacts.fresh_name,
        TemplateStoreFacts.fresh_prompt.
Qed.

Lemma upsert_then_find_witness :
  ∃ t, Templates.find_by_name (Py.strip " Intro ")
         [<["name" := "Intro"]> (<["prompt" := "Say hello"]> ∅)] = Some t
       ∧ t !! "name" = Some (Py.strip " Intro ")
       ∧ t !! "prompt" = Some (Py.strip "Say hello ").
Proof.
  apply (upsert_then_find " Intro " "Say hello " None). by vm_compute.
Defined.

(** X8.  The route of the templates writes nothing when it answers with
    an error: an unreadable body, an action that is neither save nor
    delete, or a save without a name or a prompt leave the store as it
    was. *)
Theorem templates_route_error_keeps_store (json_error : string)
    (req : option Templates.TemplatesRequest) (st : Templates.store)
    (err : string) :
  (Templates.templates_route json_error req st).1 = Templates.RouteNotOk err →
  (Templates.templates_route json_error req st).2 = st.
Proof.
  unfold Templates.templates_route. destruct req as [data|]; [|done].
  case_bool_decide.
  - destruct (TemplateStoreFacts.blank_or_not (Py.strip (Templates.t_name data)))
      as [Hn|Hn].
    { destruct (TemplateStoreFacts.upsert_failure (Templates.t_name data)
                  (Templates.t_prompt data) st) as [msg ->]; [by left|done]. }
    destruct (TemplateStoreFacts.blank_or_not
                (Py.strip (Templates.t_prompt data))) as [Hp|Hp].
    { destruct (TemplateStoreFacts.upsert_failure (Templates.t_name data)
                  (Templates.t_prompt data) st) as [msg ->]; [by right|done]. }
    by rewrite TemplateStoreFacts.upsert_success.
  - by case_bool_decide.
Qed.

Lemma templates_route_error_keeps_store_witness :
  (Templates.templates_route "bad request"
     (Some {| Templates.t_action := "rename"; Templates.t_name := "Intro";
              Templates.t_prompt := "" |}) None).2 = None.
Proof.
  by apply (templates_route_error_keeps_store "bad request" _ None
              "Invalid action").
Defined.

(** ** Sent history, read side *)

Module HistoryFacts.
Import History.

Lemma length_omap {A B} (f : A → option B) (l : list A) :
  List.length (omap f l) ≤ List.length l.
Proof.
  induction l as [|x l IH]; [done|].
  change (omap f (x :: l))
    with (match f x with Some y => y :: omap f l | None => omap f l end).
  destruct (f x); simpl; lia.
Qed.

Lemma length_last_lines n (lines : list string) :
  List.length (last_lines n lines) ≤ n.
Proof. unfold last_lines. rewrite length_drop. lia. Qed.

Lemma last_lines_all n (lines : list string) :
  List.length lines ≤ n → last_lines n lines = lines.
Proof.
  intros H. unfold last_lines.
  by replace (List.length lines - n) with 0 by lia.
Qed.

Lemma reverse_last_lines_prefix n (lines : list string) :
  reverse (last_lines n lines) `prefix_of` reverse lines.
Proof.
  unfold last_lines.
  exists (reverse (take (List.length lines - n) lines)).
  by rewrite <- reverse_app, take_drop.
Qed.

Lemma omap_prefix {A B} (f : A → option B) (l1 l2 : list A) :
  l1 `prefix_of` l2 → omap f l1 `prefix_of` omap f l2.
Proof. intros [k ->]. exists (omap f k). apply omap_app. Qed.

End HistoryFacts.

(** X9.  [read_sent_history] returns at most [max(limit, 1)] records;
    they are the lines of the file that decode, read from the last line
    backwards, so the newest comes first; lines that do not decode are
    skipped but count against the limit; a limit that covers the file
    returns every decoded line, and a missing file gives the empty
    list. *)
Theorem read_sent_history_newest_first {J : Type}
    (json_loads : string → option J) (content : string) (limit : Z) :
  let lines := Py.splitlines content in
  let out := History.read_sent_history J json_loads (Some content) limit in
  List.length out ≤ Z.to_nat (Z.max limit 1)
  ∧ out `prefix_of` omap json_loads (reverse lines)
  ∧ (Z.of_nat (List.length lines) ≤ Z.max limit 1 →
     out = omap json_loads (reverse lines))%Z
  ∧ History.read_sent_history J json_loads None limit = [].
Proof.
  intros lines out. subst out. unfold History.read_sent_history. fold lines.
  split.
  { etrans; [apply HistoryFacts.length_omap|].
    rewrite length_reverse. apply HistoryFacts.length_last_lines. }
  split.
  { apply HistoryFacts.omap_prefix, HistoryFacts.reverse_last_lines_prefix. }
  split; [|done].
  intros H. rewrite HistoryFacts.last_lines_all; [done|lia].
Qed.

(** X10.  When the route of the history answers with a list, the list
    has at most 300 records, whatever limit the query asks for, and it is
    a prefix of the decoded lines of the file read backwards. *)
Theorem history_route_bounded {J : Type}
    (json_loads : string → option J) (py_int : string → option Z)
    (int_error : string → string)
    (arg : option string) (content : string) (items : list J) :
  History.history_route J json_loads py_int int_error arg (Some content)
  = inr items →
  List.length items ≤ 300
  ∧ items `prefix_of` omap json_loads (reverse (Py.splitlines content)).
Proof.
  unfold History.history_route.
  destruct (py_int _) as [limit|]; [|done]. intros [= <-].
  destruct (read_sent_history_newest_first json_loads content
              (Z.max 1 (Z.min limit 300))) as (H1 & H2 & _).
  split; [|exact H2]. simpl in H1.
  apply (Nat.le_trans _ _ _ H1). lia.
Qed.

Lemma history_route_bounded_witness :
  List.length [ "c"; "b" ] ≤ 300
  ∧ [ "c"; "b" ] `prefix_of` omap Some (reverse (Py.splitlines "a
b
c")).
Proof.
  apply (history_route_bounded Some (λ _, Some 2%Z) (λ s, s) (Some "2")).
  by vm_compute.
Defined.

(** ** Masked address of the sender *)

Module MaskedFacts.
Import Str StrFacts Masked.

Lemma length_stars n : String.length (stars n) = n.
Proof. induction n as [|n IH]; simpl; [done|]. by rewrite IH. Qed.

Lemma mem_stars c n : c ≠ "*"%char → mem c (stars n) = false.
Proof.
  intros H. induction n as [|n IH]; [done|].
  simpl stars. rewrite mem_cons, IH.
  destruct (Ascii.eqb c "*") eqn:E; [|done].
  by apply Ascii.eqb_eq in E.
Qed.

Lemma mem_last_char c a s :
  mem c (String a s) = false → Ascii.eqb c (last_char a s) = false.
Proof.
  revert a. induction s as [|d s IH]; intros a; rewrite mem_cons.
  - simpl. by destruct (Ascii.eqb c a).
  - destruct (Ascii.eqb c a); [done|]. apply IH.
Qed.

(** The mask written for the part before the at sign. *)
Definition mask (name : string) : string :=
  if String.length name <=? 2 then stars (String.length name)
  else
    match name with
    | "" => ""
    | String a rest =>
        String a (stars (String.length name - 2))
        +:+ String (last_char a rest) ""
    end.

Lemma masked_email_cut e name domain :
  cut "@" e = Some (name, domain) →
  masked_email (Some e) = mask name +:+ "@" +:+ domain.
Proof.
  intros H. unfold masked_email, mask. rewrite H.
  destruct (String.length name <=? 2); [done|].
  destruct name as [|a rest]; [done|]. by rewrite !app_assoc.
Qed.

Lemma length_mask name : String.length (mask name) = String.length name.
Proof.
  unfold mask. destruct (String.length name <=? 2) eqn:E.
  { apply length_stars. }
  apply Nat.leb_gt in E. destruct name as [|a rest]; [done|].
  rewrite app_cons. simpl String.length in *.
  rewrite CutFacts.length_app, length_stars. simpl. lia.
Qed.

Lemma mem_mask c name :
  c ≠ "*"%char → mem c name = false → mem c (mask name) = false.
Proof.
  intros Hc Hn. unfold mask. destruct (String.length name <=? 2).
  { by apply mem_stars. }
  destruct name as [|a rest]; [done|].
  rewrite app_cons, mem_cons, mem_app, mem_stars by done.
  pose proof (mem_last_char c a rest Hn) as Hl.
  rewrite mem_cons in Hn. destruct (Ascii.eqb c a); [done|].
  simpl. by rewrite Hl.
Qed.

Lemma cut_char_first c a b :
  mem c a = false → cut (String c "") (a +:+ String c b) = Some (a, b).
Proof.
  induction a as [|d a IH]; intros H.
  - rewrite app_nil_l. simpl. by rewrite Ascii.eqb_refl.
  - rewrite mem_cons in H. rewrite app_cons, cut_cons, strip_prefix_cons.
    destruct (Ascii.eqb c d); [done|]. by rewrite IH.
Qed.

Lemma get_stars i n c : String.get i (stars n) = Some c → c = "*"%char.
Proof.
  revert i. induction n as [|n IH]; intros i; [by destruct i|].
  destruct i as [|i]; simpl; [by intros [= <-]|apply IH].
Qed.

Lemma get_app_stars i n b c :
  String.get i (stars n +:+ String b "") = Some c →
  c = "*"%char ∨ i = n.
Proof.
  revert i. induction n as [|n IH]; intros i.
  - rewrite app_nil_l. destruct i as [|[|i]]; simpl; by eauto.
  - simpl stars. rewrite app_cons. destruct i as [|i]; simpl.
    + intros [= <-]. by left.
    + intros H. destruct (IH i H) as [->| ->]; by eauto.
Qed.

(** A character of the mask that is not a star stands at the first or at
    the last place of a name of more than two characters. *)
Lemma mask_shows name i c :
  String.get i (mask name) = Some c → c ≠ "*"%char →
  2 < String.length name ∧ (i = 0 ∨ i = String.length name - 1).
Proof.
  unfold mask. destruct (String.length name <=? 2) eqn:E.
  { intros H%get_stars. done. }
  apply Nat.leb_gt in E. split; [done|].
  destruct name as [|a rest]; [done|].
  rewrite app_cons in H. destruct i as [|i]; [by left|]. right.
  simpl in H. apply get_app_stars in H as [-> | ->]; [done|].
  simpl String.length in *. lia.
Qed.

End MaskedFacts.

(** X11.  For an address with an at sign the masked address has the
    length of the address, keeps all that follows the first at sign, and
    shows of the part before it nothing but stars, except the first and
    the last character when that part has more than two; without an
    address or an at sign the text is [(not set)]. *)
Theorem masked_email_hides (e name domain : string) :
  Str.cut "@" e = Some (name, domain) →
  let m := Masked.masked_email (Some e) in
  String.length m = String.length e
  ∧ (∃ shown, Str.cut "@" m = Some (shown, domain)
              ∧ String.length shown = String.length name
              ∧ ∀ i c, String.get i shown = Some c → c ≠ "*"%char →
                       2 < String.length name
                       ∧ (i = 0 ∨ i = String.length name - 1))
  ∧ Masked.masked_email None = "(not set)"
  ∧ ∀ e', Str.mem "@" e' = false →
          Masked.masked_email (Some e') = "(not set)".
Proof.
  intros H m. subst m.
  rewrite (MaskedFacts.masked_email_cut _ _ _ H).
  pose proof (StrFacts.cut_Some _ _ _ _ H) as He.
  pose proof (StrFacts.cut_char_left _ _ _ _ H) as Hname.
  split.
  { rewrite He, !CutFacts.length_app, MaskedFacts.length_mask. done. }
  split.
  { exists (MaskedFacts.mask name).
    split; [|split; [apply MaskedFacts.length_mask|]].
    - apply MaskedFacts.cut_char_first. by apply MaskedFacts.mem_mask.
    - apply MaskedFacts.mask_shows. }
  split; [done|].
  intros e' He'. unfold Masked.masked_email.
  destruct (Str.cut "@" e') as [[a b]|] eqn:E; [|done].
  apply StrFacts.cut_Some in E. rewrite E, !StrFacts.mem_app in He'.
  apply orb_false_iff in He' as [_ He']. done.
Qed.

Lemma masked_email_hides_witness :
  String.length (Masked.masked_email (Some "sender@mail.example"))
  = String.length "sender@mail.example".
Proof.
  destruct (masked_email_hides "sender@mail.example" "sender" "mail.example")
    as [H _]; [done|exact H].
Defined.

Example masked_email_sender :
  Masked.masked_email (Some "sender@mail.example") = "s****r@mail.example"
  ∧ Masked.masked_email (Some "ab@x.io") = "**@x.io".
Proof. by vm_compute. Qed.

(** ** Send route: validation and the log *)

(** X12.  A request with a recipient, a subject or a body that is blank
    once stripped is answered with the validation error, whatever the
    mail relay and the history file would do, and the history is left as
    it is: nothing is sent and nothing is logged. *)
Theorem send_validation (w : SendRoute.World) (data : SendRoute.Payload)
    (hist : list SendRoute.HistoryRecord) :
  Py.strip (SendRoute.p_to data) = ""
  ∨ Py.strip (SendRoute.p_subject data) = ""
  ∨ Py.strip (SendRoute.p_body data) = "" →
  SendRoute.send w (Some data) hist
  = (SendRoute.NotOk "To, subject, and body are required", hist).
Proof.
  unfold SendRoute.send. intros [-> | [-> | ->]]; [done| |].
  - by rewrite orb_true_r.
  - by rewrite orb_true_r.
Qed.

Lemma send_validation_witness :
  SendRoute.send refusing_relay
    (Some {| SendRoute.p_to := "a@b.c"; SendRoute.p_subject := "  ";
             SendRoute.p_body := "Hello" |}) []
  = (SendRoute.NotOk "To, subject, and body are required", []).
Proof.
  apply (send_validation refusing_relay). right. by left.
Defined.

(** X13.  The send route only ever appends to the history, and at most
    one record per request.  An answer ok goes with exactly one new
    record, of status sent and without error; an answer with an error
    goes with no new record or with one of status failed that carries
    that error. *)
Theorem send_appends_one (w : SendRoute.World)
    (req : option SendRoute.Payload) (hist : list SendRoute.HistoryRecord) :
  let r := SendRoute.send w req hist in
  ∃ new,
    r.2 = hist ++ new
    ∧ List.length new ≤ 1
    ∧ (r.1 = SendRoute.Ok →
       ∃ rec, new = [rec] ∧ SendRoute.status rec = "sent"
              ∧ SendRoute.error rec = "")
    ∧ (∀ e, r.1 = SendRoute.NotOk e →
       ∀ rec, rec ∈ new →
              SendRoute.status rec = "failed" ∧ SendRoute.error rec = e).
Proof.
  intros r. subst r.
  assert (Hnone : ∀ e,
    ∃ new, hist = hist ++ new ∧ List.length new ≤ 1
      ∧ (SendRoute.NotOk e = SendRoute.Ok →
         ∃ rec, new = [rec] ∧ SendRoute.status rec = "sent"
                ∧ SendRoute.error rec = "")
      ∧ (∀ e', SendRoute.NotOk e = SendRoute.NotOk e' →
         ∀ rec, rec ∈ new →
                SendRoute.status rec = "failed" ∧ SendRoute.error rec = e')).
  { intros e. exists []. rewrite app_nil_r. split; [done|].
    split; [simpl; lia|]. split; [done|].
    intros e' _ rec Hin. by apply elem_of_nil in Hin. }
  assert (Hexc : ∀ k t s b e,
    ∃ new, (SendRoute.on_exception w k t s b e hist).2 = hist ++ new
      ∧ List.length new ≤ 1
      ∧ ((SendRoute.on_exception w k t s b e hist).1 = SendRoute.Ok →
         ∃ rec, new = [rec] ∧ SendRoute.status rec = "sent"
                ∧ SendRoute.error rec = "")
      ∧ (∀ e', (SendRoute.on_exception w k t s b e hist).1
               = SendRoute.NotOk e' →
         ∀ rec, rec ∈ new →
                SendRoute.status rec = "failed" ∧ SendRoute.error rec = e')).
  { intros k t s b e. unfold SendRoute.on_exception. cbn [fst snd].
    destruct (SendRoute.nonempty t || SendRoute.nonempty s
              || SendRoute.nonempty b); [|apply Hnone].
    unfold SendRoute.append_sent_history.
    destruct (SendRoute.append_error w k); [apply Hnone|].
    eexists. split; [done|]. split; [simpl; lia|]. split; [done|].
    intros e' [= <-] rec Hin. apply list_elem_of_singleton in Hin.
    by subst rec. }
  unfold SendRoute.send. destruct req as [data|]; [|apply Hexc].
  destruct (Str.is_empty _ || Str.is_empty _ || Str.is_empty _);
    [apply Hnone|].
  destruct (SendRoute.smtp_error w); [apply Hexc|].
  unfold SendRoute.append_sent_history.
  destruct (SendRoute.append_error w 0); [apply Hexc|].
  eexists. split; [done|]. split; [simpl; lia|]. split; [|done].
  intros _. eexists. split; [done|]. by split.
Qed.

(** ** Drafting routes *)

(** X14.  The route [generate] answers a blank prompt with its own error
    whatever the model would say, and a draft it returns has a recipient,
    a subject and a body that are stripped of surrounding white space,
    the empty text standing for a key that the model left out. *)
Theorem generate_route_shape (complete : string → string → AiRoutes.Completion)
    (json_error : string) (prompt : string) :
  (Py.strip prompt = "" →
   AiRoutes.generate complete json_error (Some prompt)
   = AiRoutes.RNotOk "Prompt is required")
  ∧ (∀ em, AiRoutes.generate complete json_error (Some prompt)
           = AiRoutes.ROk em →
     Py.strip prompt ≠ ""
     ∧ Py.strip (AiRoutes.e_to em) = AiRoutes.e_to em
     ∧ Py.strip (AiRoutes.e_subject em) = AiRoutes.e_subject em
     ∧ Py.strip (AiRoutes.e_body em) = AiRoutes.e_body em
     ∧ ∃ obj, complete AiRoutes.generate_system (Py.strip prompt)
              = AiRoutes.Json obj
              ∧ (obj !! "to" = None → AiRoutes.e_to em = "")
              ∧ (obj !! "subject" = None → AiRoutes.e_subject em = "")
              ∧ (obj !! "body" = None → AiRoutes.e_body em = "")).
Proof.
  unfold AiRoutes.generate. split; [by intros ->|].
  intros em. destruct (Str.is_empty (Py.strip prompt)) eqn:E; [done|].
  destruct (complete _ _) as [e| |obj] eqn:Ec; [done..|]. intros [= <-].
  split; [by intros H; rewrite H in E|]. cbn.
  split; [apply StrFacts.strip_idem|]. split; [apply StrFacts.strip_idem|].
  split; [apply StrFacts.strip_idem|].
  exists obj. split; [done|]. unfold AiRoutes.field.
  by repeat split; intros ->.
Qed.

(** X15.  The route [followup] answers with its validation error, and
    never asks the model, when the recipient, the previous subject or the
    previous body is blank once stripped: the answer is the same for
    every model. *)
Theorem followup_validation (complete : string → string → AiRoutes.Completion)
    (json_error : string) (data : AiRoutes.FollowupRequest) :
  Py.strip (AiRoutes.f_to data) = ""
  ∨ Py.strip (AiRoutes.f_previous_subject data) = ""
  ∨ Py.strip (AiRoutes.f_previous_body data) = "" →
  AiRoutes.followup complete json_error (Some data)
  = AiRoutes.RNotOk "To, previous_subject, and previous_body are required".
Proof.
  unfold AiRoutes.followup. intros [-> | [-> | ->]]; [done| |].
  - by rewrite orb_true_r.
  - by rewrite orb_true_r.
Qed.

Lemma followup_validation_witness :
  AiRoutes.followup (λ _ _, AiRoutes.NotJson) "bad request"
    (Some {| AiRoutes.f_to := "a@b.c"; AiRoutes.f_prospect_name := "Al";
             AiRoutes.f_previous_subject := "";
             AiRoutes.f_previous_body := "Hello";
             AiRoutes.f_campaign_prompt := "" |})
  = AiRoutes.RNotOk "To, previous_subject, and previous_body are required".
Proof.
  apply (followup_validation (λ _ _, AiRoutes.NotJson)). right. by left.
Defined.

(** X16.  A follow-up that the route returns never has a blank recipient
    or a blank subject: the recipient is the one of the model or else
    the one of the request, the subject the one of the model or else
    [Quick follow-up]; the three fields are stripped. *)
Theorem followup_never_blank (complete : string → string → AiRoutes.Completion)
    (json_error : string) (data : AiRoutes.FollowupRequest)
    (em : AiRoutes.Email) :
  AiRoutes.followup complete json_error (Some data) = AiRoutes.ROk em →
  AiRoutes.e_to em ≠ ""
  ∧ AiRoutes.e_subject em ≠ ""
  ∧ Py.strip (AiRoutes.e_to em) = AiRoutes.e_to em
  ∧ Py.strip (AiRoutes.e_subject em) = AiRoutes.e_subject em
  ∧ Py.strip (AiRoutes.e_body em) = AiRoutes.e_body em.
Proof.
  unfold AiRoutes.followup.
  destruct (Str.is_empty (Py.strip (AiRoutes.f_to data))) eqn:Et; [done|].
  cbn [orb].
  destruct (Str.is_empty (Py.strip (AiRoutes.f_previous_subject data))
            || Str.is_empty (Py.strip (AiRoutes.f_previous_body data)));
    [done|].
  destruct (complete _ _) as [e| |obj]; [done..|]. intros [= <-]. cbn.
  unfold Ui.or_else.
  destruct (Str.is_empty (Py.strip (AiRoutes.field obj "to"))) eqn:E1;
    destruct (Str.is_empty (Py.strip (AiRoutes.field obj "subject"))) eqn:E2;
    repeat split;
    try apply StrFacts.strip_idem; try done;
    try (intros H; rewrite H in *; done).
Qed.

Lemma followup_never_blank_witness :
  AiRoutes.e_subject
    {| AiRoutes.e_to := "a@b.c"; AiRoutes.e_subject := "Quick follow-up";
       AiRoutes.e_body := "Any news?" |} ≠ "".
Proof.
  destruct (followup_never_blank
              (λ _ _, AiRoutes.Json (<["body" := " Any news? "]> ∅))
              "bad request"
              {| AiRoutes.f_to := " a@b.c"; AiRoutes.f_prospect_name := "Al";
                 AiRoutes.f_previous_subject := "Hi";
                 AiRoutes.f_previous_body := "Hello";
                 AiRoutes.f_campaign_prompt := "" |}
              {| AiRoutes.e_to := "a@b.c";
                 AiRoutes.e_subject := "Quick follow-up";
                 AiRoutes.e_body := "Any news?" |}) as (_ & H & _);
    [by vm_compute|exact H].
Defined.

(** ** The prompt document: round trips *)

Module CodecRound.
Import Str StrFacts CutFacts Codec CodecFacts.

#[local] Arguments Ascii.eqb : simpl never.

Lemma trimmed_head s : Js.trim s = s → head_out Js.is_space s.
Proof. intros <-. apply strip_head. Qed.

Lemma one_line_no_terminator s : Js.take_line s = s → no_terminator s.
Proof. intros <-. apply take_line_no_terminator. Qed.

Lemma no_terminator_single_line s : no_terminator s → single_line s.
Proof.
  unfold no_terminator, single_line. induction s as [|c s IH]; [done|].
  simpl all_chars. intros [Hc Hs]%andb_true_iff. rewrite mem_cons.
  destruct (Ascii.eqb Py.LF c) eqn:E; [|by apply IH].
  apply Ascii.eqb_eq in E as <-. done.
Qed.

Lemma includes_rebuilt h c : includes DIVIDER (h +:+ DIVIDER +:+ c) = true.
Proof.
  unfold includes. by destruct (cut_finds DIVIDER h c) as [? ->].
Qed.

Lemma setRecipientLines_twice full em nm em' nm' :
  single_line em → single_line nm →
  setRecipientLines (setRecipientLines full em nm) em' nm'
  = setRecipientLines full em' nm'.
Proof.
  intros He Hn.
  unfold setRecipientLines at 1 3.
  rewrite !getCampaignPrompt_ensure.
  rewrite setRecipientLines_text by done.
  unfold setRecipientLines. rewrite includes_rebuilt.
  unfold Js.trim. by rewrite strip_idem.
Qed.

Lemma find_ci_header_name em rest :
  Js.find_ci "Prospect Name:" em = None →
  Js.find_ci "Prospect Name:" (header em "" +:+ rest)
  = Some (" " +:+ rest).
Proof.
  intros He. unfold header.
  rewrite !app_assoc, find_ci_name_label.
  change (NL +:+ "Prospect Name: " +:+ "" +:+ rest)
    with (String Py.LF ("Prospect Name:" +:+ " " +:+ rest)).
  rewrite find_ci_past by done.
  by rewrite (find_ci_here _ _ _ (strip_prefix_ci_app _ _)).
Qed.

End CodecRound.

(** X17.  Writing an email and a name into the header and reading the
    header back gives the same email and name, when both are non-empty,
    trimmed and free of line ends and the email does not contain the
    label of the name line. *)
Theorem setRecipientLines_read_back (full em nm : string) :
  em ≠ "" → nm ≠ "" →
  Js.trim em = em → Js.trim nm = nm →
  Js.take_line em = em → Js.take_line nm = nm →
  Js.find_ci "Prospect Name:" em = None →
  Codec.getRecipientFromPrompt (Codec.setRecipientLines full em nm)
  = {| Codec.r_email := em; Codec.r_name := nm |}.
Proof.
  intros He Hn Te Tn Le Ln Hlabel.
  unfold Codec.setRecipientLines, Codec.getRecipientFromPrompt.
  rewrite CodecFacts.match_label_email
    by auto using CodecRound.trimmed_head, CodecRound.one_line_no_terminator.
  rewrite CodecFacts.match_label_name
    by auto using CodecRound.trimmed_head, CodecRound.one_line_no_terminator.
  cbn [Codec.group_or_empty]. by rewrite Te, Tn.
Qed.

Lemma setRecipientLines_read_back_witness :
  Codec.getRecipientFromPrompt
    (Codec.setRecipientLines "Say hello" "ann@site.org" "Ann Lee")
  = {| Codec.r_email := "ann@site.org"; Codec.r_name := "Ann Lee" |}.
Proof.
  apply (setRecipientLines_read_back "Say hello" "ann@site.org" "Ann Lee");
    by vm_compute.
Defined.

(** X18.  With an empty name the header does not read back: the name
    line is blank, the pattern of the name runs over the line ends that
    follow it, and the name read from the document is the text line of
    the divider, whatever the document was before and whatever the
    email, as long as the email does not contain the label of the name
    line. *)
Theorem setRecipientLines_empty_name (full em : string) :
  Js.find_ci "Prospect Name:" em = None →
  Codec.r_name
    (Codec.getRecipientFromPrompt (Codec.setRecipientLines full em ""))
  = "--- CAMPAIGN PROMPT ---".
Proof.
  intros He.
  unfold Codec.setRecipientLines, Codec.getRecipientFromPrompt.
  cbn [Codec.r_name]. unfold Js.match_label.
  rewrite CodecRound.find_ci_header_name by done.
  reflexivity.
Qed.

Lemma setRecipientLines_empty_name_witness :
  Codec.r_name
    (Codec.getRecipientFromPrompt
       (Codec.setRecipientLines "Say hello" "ann@site.org" ""))
  = "--- CAMPAIGN PROMPT ---".
Proof.
  apply (setRecipientLines_empty_name "Say hello" "ann@site.org").
  by vm_compute.
Defined.

(** X19.  Setting a campaign text that does not contain the divider and
    reading the campaign text back gives the text trimmed, for every
    document. *)
Theorem setCampaignPromptOnly_read_back (full campaignText : string) :
  Str.includes Codec.DIVIDER campaignText = false →
  Codec.getCampaignPrompt (Codec.setCampaignPromptOnly full campaignText)
  = Js.trim campaignText.
Proof.
  intros Hd. unfold Codec.setCampaignPromptOnly.
  apply CodecFacts.getCampaignPrompt_rebuilt.
  - apply CodecRound.no_terminator_single_line, CodecFacts.group_shape.
  - apply CodecRound.no_terminator_single_line, CodecFacts.group_shape.
  - apply CutFacts.cut_None_strip. unfold Str.includes in Hd.
    by destruct (Str.cut Codec.DIVIDER campaignText).
Qed.

Lemma setCampaignPromptOnly_read_back_witness :
  Codec.getCampaignPrompt
    (Codec.setCampaignPromptOnly "Say hello" "  Offer a review. ")
  = Js.trim "  Offer a review. ".
Proof.
  apply (setCampaignPromptOnly_read_back "Say hello" "  Offer a review. ").
  by vm_compute.
Defined.

(** X20.  Of two writes of the header the last one wins: writing a
    one-line email and name and then another email and name gives the
    document that writing the second pair alone gives. *)
Theorem setRecipientLines_last_wins (full em nm em' nm' : string) :
  Codec.single_line em → Codec.single_line nm →
  Codec.setRecipientLines (Codec.setRecipientLines full em nm) em' nm'
  = Codec.setRecipientLines full em' nm'.
Proof. apply CodecRound.setRecipientLines_twice. Qed.

Lemma setRecipientLines_last_wins_witness :
  Codec.setRecipientLines
    (Codec.setRecipientLines "Say hello" "ann@site.org" "Ann Lee")
    "bo@site.org" "Bo"
  = Codec.setRecipientLines "Say hello" "bo@site.org" "Bo".
Proof.
  apply (setRecipientLines_last_wins "Say hello" "ann@site.org" "Ann Lee");
    by vm_compute.
Defined.

(** ** The page: what a handler leaves alone *)

Module PageFacts.
Import Ui UiFacts.


Definition send_ok (r : SendReply) : bool :=
  match r with SendOk => true | SendErr _ => false end.

(** The prompts of the generations of a trace, in order. *)
Definition prompts (tr : list event) : list string :=
  omap (λ ev, match ev with Generate p _ => Some p | _ => None end) tr.

Section page.
Variable env : Env.

(** No click on Stop at the [n] suspension points from [k] on. *)
Definition no_stop (k n : nat) : Prop :=
  ∀ j, j < n → stop_clicked env (k + j) = false.

(** A step that makes the requests [new], one suspension point each,
    and leaves the list, the cursor and the prompt alone; it starts no
    controller, and the queue is still running after it only when Stop
    was not clicked meanwhile. *)
Record quiet (s s' : State) (new : list event) : Prop := {
  q_prospects : prospects s' = prospects s;
  q_trace : trace s' = trace s ++ new;
  q_clock : clock s' = clock s + List.length new;
  q_prompt : value s' c_prompt = value s c_prompt;
  q_index : activeIndex s' = activeIndex s;
  q_play : flag s' playRunning = true → flag s playRunning = true;
  q_auto :
    flag s' autoRunning = true →
    flag s autoRunning = true ∧ no_stop (clock s) (List.length new)
}.

Lemma no_stop_0 k : no_stop k 0.
Proof. intros j Hj. lia. Qed.

Lemma no_stop_app k n m :
  no_stop k n → no_stop (k + n) m → no_stop k (n + m).
Proof.
  intros H1 H2 j Hj. destruct (decide (j < n)) as [Hlt|Hge]; [by apply H1|].
  replace (k + j) with (k + n + (j - n)) by lia. apply H2. lia.
Qed.

Ltac quiet_same :=
  split;
  [ done | by simpl; rewrite app_nil_r | simpl; lia | done | done | done
  | intros ?; split; [done|apply no_stop_0] ].

Lemma quiet_refl s : quiet s s [].
Proof. quiet_same. Qed.

Lemma quiet_trans s1 s2 s3 a b :
  quiet s1 s2 a → quiet s2 s3 b → quiet s1 s3 (a ++ b).
Proof.
  intros [P1 T1 C1 V1 I1 F1 A1] [P2 T2 C2 V2 I2 F2 A2]. split.
  - congruence.
  - by rewrite T2, T1, <- (assoc_L (++)).
  - rewrite C2, C1, length_app. lia.
  - congruence.
  - congruence.
  - auto.
  - intros H. destruct (A2 H) as [H2 N2]. destruct (A1 H2) as [H1 N1].
    split; [done|]. rewrite length_app. apply no_stop_app; [done|].
    by rewrite <- C1.
Qed.

Lemma quiet_showBox b t ok s : quiet s (showBox b t ok s) [].
Proof. quiet_same. Qed.

Lemma quiet_hideBox b s : quiet s (hideBox b s) [].
Proof. quiet_same. Qed.

Lemma quiet_awaiting b s : quiet s (set_flag awaitingApproval b s) [].
Proof. quiet_same. Qed.

Lemma quiet_fillEmailFields d s : quiet s (fillEmailFields d s) [].
Proof. quiet_same. Qed.

Lemma quiet_log_await ev s : quiet s (await env (log ev s)) [ev].
Proof.
  unfold await, autoStopBtn_onclick, pauseBtn_onclick.
  change (clock (log ev s)) with (clock s).
  change (flag (tick (log ev s)) autoRunning) with (flag s autoRunning).
  assert (Hstop : stop_clicked env (clock s) = false → no_stop (clock s) 1).
  { intros H j Hj. replace (clock s + j) with (clock s) by lia. done. }
  destruct (stop_clicked env (clock s)) eqn:Es;
    destruct (pause_clicked env (clock s));
    try destruct (flag s autoRunning) eqn:Ea; cbn [negb];
    (split;
     [ done | done | simpl; lia | done | done
     | cbn; rewrite ?fn_lookup_insert_ne by done; try done; try congruence
     | cbn; rewrite ?fn_lookup_insert_ne by done; try congruence;
       try (intros ?; split; [congruence|by auto]) ]).
Qed.


Lemma quiet_loadHistory s : quiet s (loadHistory env s) [LoadHistory].
Proof.
  unfold loadHistory. destruct (history_error env (clock s)).
  - apply (quiet_trans s (await env (log LoadHistory s)) _ [LoadHistory] []);
      [apply quiet_log_await|apply quiet_showBox].
  - apply quiet_log_await.
Qed.

(** [generateNow] asks for the trimmed prompt, once, unless the prompt is
    blank. *)
Lemma quiet_generateNow s :
  let r := generateNow env s in
  if Str.is_empty (Js.trim (value s c_prompt))
  then r.1 = false ∧ quiet s r.2 []
  else ∃ reply,
      r.1 = reply_ok reply
      ∧ quiet s r.2 [Generate (Js.trim (value s c_prompt)) reply].
Proof.
  unfold generateNow.
  change (value (hideBox aiOut s) c_prompt) with (value s c_prompt).
  destruct (Str.is_empty (Js.trim (value s c_prompt))) eqn:E.
  { split; [done|]. cbn [fst snd]. quiet_same. }
  set (s1 := showBox aiOut "Generating..." true (hideBox aiOut s)).
  assert (Q0 : quiet s s1 []) by quiet_same.
  set (p := Js.trim (value s c_prompt)).
  exists (generate_reply env (clock s1) p).
  pose proof (quiet_log_await
                (Generate p (generate_reply env (clock s1) p)) s1) as Q.
  destruct (generate_reply env (clock s1) p) as [d|e]; cbn [fst snd reply_ok].
  - split; [done|].
    apply (quiet_trans s _ _ [] [Generate p (GenOk d)] Q0).
    apply (quiet_trans s1 _ _ [Generate p (GenOk d)] [] Q).
    apply (quiet_trans _ _ _ [] [] (quiet_fillEmailFields d _)).
    apply quiet_showBox.
  - split; [done|].
    apply (quiet_trans s _ _ [] [Generate p (GenErr e)] Q0).
    apply (quiet_trans s1 _ _ [Generate p (GenErr e)] [] Q).
    apply quiet_showBox.
Qed.

(** [sendNow] sends the trimmed recipient and subject and the body as it
    is, once, unless one of them is blank. *)
Lemma quiet_sendNow s :
  let r := sendNow env s in
  let to := Js.trim (value s c_to) in
  let subject := Js.trim (value s c_subject) in
  let body := value s c_body in
  if Str.is_empty to || Str.is_empty subject || Str.is_empty body
  then r.1 = false ∧ quiet s r.2 []
  else ∃ reply,
      r.1 = send_ok reply ∧ quiet s r.2 [Send to subject body reply].
Proof.
  unfold sendNow.
  change (value (hideBox sendOut s)) with (value s).
  destruct (Str.is_empty _ || Str.is_empty _ || Str.is_empty _) eqn:E.
  { split; [done|]. cbn [fst snd]. quiet_same. }
  set (s1 := showBox sendOut "Sending..." true (hideBox sendOut s)).
  assert (Q0 : quiet s s1 []) by quiet_same.
  set (t := Js.trim (value s c_to)).
  set (su := Js.trim (value s c_subject)).
  set (b := value s c_body).
  exists (send_reply env (clock s1) t su b).
  pose proof (quiet_log_await
                (Send t su b (send_reply env (clock s1) t su b)) s1) as Q.
  destruct (send_reply env (clock s1) t su b) as [|e]; cbn [fst snd send_ok].
  - split; [done|].
    apply (quiet_trans s _ _ [] [_] Q0).
    apply (quiet_trans s1 _ _ [_] [] Q). apply quiet_showBox.
  - split; [done|].
    apply (quiet_trans s _ _ [] [_] Q0).
    apply (quiet_trans s1 _ _ [_] [] Q). apply quiet_showBox.
Qed.

Lemma quiet_then_showBox s s' new b t ok :
  quiet s s' new → quiet s (showBox b t ok s') new.
Proof. intros [P T C V I F A]. by split. Qed.

(** *** The rounds of the queue *)





Lemma count_nonneg P tr : (0 ≤ count P tr)%Z.
Proof. induction tr as [|ev tr IH]; simpl; [lia|]. destruct (P ev); lia. Qed.









(** The state after [setActive] on the prospect [p] and a message. *)
Record selected (s s1 : State) (p : Prospect) : Prop := {
  sel_prospects : prospects s1 = prospects s;
  sel_trace : trace s1 = trace s;
  sel_clock : clock s1 = clock s;
  sel_flag : flag s1 = flag s;
  sel_prompt :
    value s1 c_prompt
    = Codec.setRecipientLines (value s c_prompt) (email p) (name p)
}.


Lemma setActive_frame i s :
  prospects (setActive i s) = prospects s
  ∧ trace (setActive i s) = trace s
  ∧ clock (setActive i s) = clock s
  ∧ flag (setActive i s) = flag s
  ∧ activeIndex (setActive i s) = i.
Proof. unfold setActive. by destruct (prospect_at _ i). Qed.






Lemma lookup_prospect s i :
  (0 ≤ i < length_prospects s)%Z →
  ∃ p, prospect_at s i = Some p ∧ prospects s !! Z.to_nat i = Some p.
Proof.
  intros Hi. destruct (prospect_at_Some s i Hi) as [p Hp]. exists p.
  split; [done|]. unfold prospect_at in Hp.
  by assert ((i <? 0)%Z = false) as E by (apply Z.ltb_ge; lia); rewrite E in Hp.
Qed.



End page.

End PageFacts.

Module PlayFacts.
Import Ui UiFacts PageFacts.

Section play.
Variable env : Env.

Lemma sends_generate p r : sends [Generate p r] = 0%Z.
Proof. reflexivity. Qed.

(** A cycle on a selected prospect: one generation at most, and the
    cursor and the prompt stay. *)
Lemma quiet_startCycle s :
  prospects s ≠ [] → (0 ≤ activeIndex s)%Z →
  ∃ new,
    quiet env s (startCycleForCurrentProspect env s) new
    ∧ (new = [] ∨ ∃ r, new = [Generate (Js.trim (value s c_prompt)) r]).
Proof.
  intros Hp Hi. unfold startCycleForCurrentProspect.
  destruct (prospects s) as [|p0 ps] eqn:Hps; [done|].
  assert ((activeIndex s <? 0)%Z = false) as -> by (apply Z.ltb_ge; lia).
  pose proof (quiet_awaiting env false s) as Q0.
  set (s1 := set_flag awaitingApproval false s) in *.
  pose proof (quiet_generateNow env s1) as G. cbv zeta in G.
  change (value s1 c_prompt) with (value s c_prompt) in G.
  destruct (Str.is_empty (Js.trim (value s c_prompt))).
  - destruct G as [Hok Q]. destruct (generateNow env s1) as [ok s2].
    cbn [fst snd] in *. subst ok. cbn [negb]. exists []. split; [|by left].
    apply (quiet_trans env s s1 _ [] [] Q0).
    apply (quiet_trans env s1 s2 _ [] [] Q). apply quiet_awaiting.
  - destruct G as (r & Hok & Q). destruct (generateNow env s1) as [ok s2].
    cbn [fst snd] in *. subst ok. eexists. split; [|right; by exists r].
    apply (quiet_trans env s s1 _ [] [_] Q0).
    destruct r as [d|e]; cbn [reply_ok negb].
    + apply (quiet_trans env s1 s2 _ [_] [] Q).
      apply quiet_then_showBox, quiet_awaiting.
    + apply (quiet_trans env s1 s2 _ [_] [] Q). apply quiet_awaiting.
Qed.

(** A cycle sends nothing, whatever the page. *)
Lemma startCycle_no_send s :
  ∃ new,
    trace (startCycleForCurrentProspect env s) = trace s ++ new
    ∧ sends new = 0%Z.
Proof.
  unfold startCycleForCurrentProspect.
  destruct (prospects s) as [|p0 ps] eqn:Hps.
  { exists []. split; [by simpl; rewrite app_nil_r|done]. }
  set (s0 := if (activeIndex s <? 0)%Z then setActive 0 s else s).
  assert (T0 : trace s0 = trace s).
  { subst s0. destruct (activeIndex s <? 0)%Z; [|done].
    by destruct (setActive_frame 0 s) as (_ & T & _). }
  set (s1 := set_flag awaitingApproval false s0).
  pose proof (quiet_generateNow env s1) as G. cbv zeta in G.
  destruct (Str.is_empty (Js.trim (value s1 c_prompt))).
  - destruct G as [Hok Q]. destruct (generateNow env s1) as [ok s2].
    cbn [fst snd] in *. subst ok. cbn [negb]. exists []. split; [|done].
    simpl. rewrite (q_trace _ _ _ _ Q). subst s1. simpl. by rewrite T0.
  - destruct G as (r & Hok & Q). destruct (generateNow env s1) as [ok s2].
    cbn [fst snd] in *. subst ok. eexists. split; [|apply sends_generate].
    destruct r as [d|e]; cbn [reply_ok negb]; simpl;
      rewrite (q_trace _ _ _ _ Q); subst s1; simpl; by rewrite T0.
Qed.

End play.

End PlayFacts.

(** ** The queue: order, Stop and Play Mode *)





(** Stop clicked during the first generation of a run over three
    prospects: the mail of the first prospect is still sent and the
    pause is still taken, and the run ends there. *)
Example queue_stop_during_generation :
  let r := Ui.runFullAutomationQueue stop_at_once queue_state in
  r.1 = (Ui.LoopExit, 1%Z)
  ∧ map Ui.is_send (Ui.trace r.2) = [false; true; false; false]
  ∧ PageFacts.prompts (Ui.trace r.2)
    = [Js.trim (Codec.setRecipientLines "" "ann@x.io" "Ann")]
  ∧ Ui.box r.2 Ui.autoOut
    = {| Ui.text := "Sent 1. Waiting 2s then moving to next...";
         Ui.good := true |}.
Proof. by vm_compute. Qed.


(** ** Play Mode: Approve and Next *)

(** X24.  A click on Approve sends at most one mail.  Without a draft
    awaiting approval it makes no request and leaves the cursor and the
    form alone; and when no mail went through, because a field is blank
    or the server refused, it does not advance: the cursor and the form
    stay and no draft is asked for. *)
Theorem approve_sends_at_most_once (env : Ui.Env) (s : Ui.State) :
  let s' := Ui.approveSendBtn_onclick env s in
  ∃ new,
    Ui.trace s' = Ui.trace s ++ new
    ∧ (Ui.sends new ≤ 1)%Z
    ∧ (Ui.flag s Ui.awaitingApproval = false →
       new = [] ∧ Ui.activeIndex s' = Ui.activeIndex s
       ∧ Ui.value s' = Ui.value s)
    ∧ (Ui.sends_ok new = 0%Z →
       Ui.activeIndex s' = Ui.activeIndex s
       ∧ Ui.value s' = Ui.value s
       ∧ ∀ p reply, Ui.Generate p reply ∉ new).
Proof.
  intros s'. subst s'. unfold Ui.approveSendBtn_onclick.
  destruct (Ui.flag s Ui.awaitingApproval) eqn:Ea; cbn [negb].
  2:{ exists []. split; [by simpl; rewrite app_nil_r|]. split; [done|].
      split; [done|]. intros _. split; [done|]. split; [done|].
      intros p reply H. by apply elem_of_nil in H. }
  pose proof (PageFacts.quiet_sendNow env s) as Sd. cbv zeta in Sd.
  pose proof (UiFacts.same_page_sendNow env s) as [I1 V1].
  destruct (Ui.sendNow env s) as [sent s1]. cbn [fst snd] in *.
  pose proof (PageFacts.quiet_loadHistory env s1) as Ql.
  pose proof (UiFacts.same_page_loadHistory env s1) as [I2 V2].
  set (s2 := Ui.loadHistory env s1) in *.
  assert (Hfail : ∀ sn,
    PageFacts.quiet env s s1 sn → Ui.sends_ok sn = 0%Z → (Ui.sends sn ≤ 1)%Z →
    (∀ p reply, Ui.Generate p reply ∉ sn) →
    ∃ new,
      Ui.trace s2 = Ui.trace s ++ new
      ∧ (Ui.sends new ≤ 1)%Z
      ∧ (true = false →
         new = [] ∧ Ui.activeIndex s2 = Ui.activeIndex s
         ∧ Ui.value s2 = Ui.value s)
      ∧ (Ui.sends_ok new = 0%Z →
         Ui.activeIndex s2 = Ui.activeIndex s
         ∧ Ui.value s2 = Ui.value s
         ∧ ∀ p reply, Ui.Generate p reply ∉ new)).
  { intros sn Q H0 H1 Hg. exists (sn ++ [Ui.LoadHistory]).
    split; [apply (PageFacts.q_trace _ _ _ _
                     (PageFacts.quiet_trans env _ _ _ _ _ Q Ql))|].
    split; [unfold Ui.sends in *; rewrite UiFacts.count_app; simpl; lia|].
    split; [done|]. intros _. split; [congruence|]. split; [congruence|].
    intros p reply [H|H]%elem_of_app; [by apply Hg in H|].
    by apply list_elem_of_singleton in H. }
  destruct (Str.is_empty _ || Str.is_empty _ || Str.is_empty _).
  { destruct Sd as [-> Q]. cbn [negb]. apply (Hfail [] Q); [done..|].
    intros p reply H. by apply elem_of_nil in H. }
  destruct Sd as (reply & -> & Q).
  destruct reply as [|e]; cbn [PageFacts.send_ok negb].
  2:{ apply (Hfail _ Q); [done..|].
      intros p reply H. by apply list_elem_of_singleton in H. }
  clear Hfail.
  pose proof (PageFacts.q_trace _ _ _ _
                (PageFacts.quiet_trans env _ _ _ _ _ Q Ql)) as T.
  cbn [app] in T.
  set (s3 := Ui.set_flag Ui.awaitingApproval false s2).
  assert (Hok : ∀ rest,
    (Ui.sends rest = 0)%Z →
    let new := Ui.Send (Js.trim (Ui.value s Ui.c_to))
                 (Js.trim (Ui.value s Ui.c_subject)) (Ui.value s Ui.c_body)
                 Ui.SendOk :: Ui.LoadHistory :: rest in
    (Ui.sends new ≤ 1)%Z ∧ Ui.sends_ok new ≠ 0%Z).
  { intros rest H new. subst new. unfold Ui.sends, Ui.sends_ok in *.
    cbn [Ui.count Ui.is_send Ui.is_send_ok]. rewrite H.
    pose proof (PageFacts.count_nonneg Ui.is_send_ok rest). lia. }
  destruct (negb (Ui.flag s3 Ui.playRunning)).
  { destruct (Hok [] eq_refl) as [H1 H2]. eexists. split; [exact T|].
    split; [done|]. split; [done|]. intros H. by apply H2 in H. }
  destruct (Ui.activeIndex s3 >=? Ui.length_prospects s3 - 1)%Z.
  { destruct (Hok [] eq_refl) as [H1 H2]. eexists. split; [exact T|].
    split; [done|]. split; [done|]. intros H. by apply H2 in H. }
  destruct (PlayFacts.startCycle_no_send env
              (Ui.setActive (Ui.activeIndex s3 + 1) s3)) as (g & Tg & Hg).
  destruct (Hok g Hg) as [H1 H2]. eexists. split.
  { rewrite Tg.
    destruct (PageFacts.setActive_frame (Ui.activeIndex s3 + 1) s3)
      as (_ & -> & _).
    change (Ui.trace s3) with (Ui.trace s2). rewrite T.
    by rewrite <- (assoc_L (++)). }
  split; [done|]. split; [done|]. intros H. by apply H2 in H.
Qed.

(** X25.  A click on Next on a page with prospects moves the cursor to
    the next prospect and no further than the last one, writes the
    header of that prospect into the prompt, and sends nothing; with
    Play Mode off it makes no request at all and fills the recipient
    with the email of that prospect. *)
Theorem nextBtn_cursor (env : Ui.Env) (s : Ui.State) :
  Ui.prospects s ≠ [] →
  (-1 ≤ Ui.activeIndex s)%Z →
  let s' := Buttons.nextBtn_onclick env s in
  let next := Z.min (Ui.activeIndex s + 1) (Ui.length_prospects s - 1) in
  Ui.activeIndex s' = next
  ∧ (0 ≤ next < Ui.length_prospects s)%Z
  ∧ ∃ p new,
      Ui.prospect_at s next = Some p
      ∧ Ui.value s' Ui.c_prompt
        = Codec.setRecipientLines (Ui.value s Ui.c_prompt) (email p) (name p)
      ∧ Ui.trace s' = Ui.trace s ++ new
      ∧ Ui.sends new = 0%Z
      ∧ (Ui.flag s Ui.playRunning = false →
         new = [] ∧ Ui.value s' Ui.c_to = email p).
Proof.
  intros Hne Hi s' next. subst s'. unfold Buttons.nextBtn_onclick.
  fold next.
  assert (Hlen : (0 < Ui.length_prospects s)%Z).
  { unfold Ui.length_prospects. destruct (Ui.prospects s); [done|].
    simpl. lia. }
  destruct (Ui.prospects s) as [|p0 ps] eqn:Hps; [done|].
  assert (Hn : (0 ≤ next < Ui.length_prospects s)%Z) by (subst next; lia).
  destruct (PageFacts.lookup_prospect s next Hn) as (p & Hat & _).
  destruct (UiFacts.setActive_selected s next p Hat) as [HI HV].
  destruct (PageFacts.setActive_frame next s) as (HP & HT & _ & HF & _).
  split; [|split; [done|]].
  - destruct (Ui.flag (Ui.setActive next s) Ui.playRunning); [|done].
    destruct (PlayFacts.quiet_startCycle env (Ui.setActive next s))
      as (g & Q & _); [by rewrite HP, Hps|lia|].
    by rewrite (PageFacts.q_index _ _ _ _ Q).
  - exists p. rewrite HF.
    destruct (Ui.flag s Ui.playRunning) eqn:Ep.
    + destruct (PlayFacts.quiet_startCycle env (Ui.setActive next s))
        as (g & Q & Hg); [by rewrite HP, Hps|lia|].
      exists g. split; [done|].
      split; [by rewrite (PageFacts.q_prompt _ _ _ _ Q)|].
      split; [by rewrite (PageFacts.q_trace _ _ _ _ Q), HT|].
      split; [by destruct Hg as [->|[r ->]]|done].
    + exists []. split; [done|]. split; [done|].
      split; [by rewrite HT, app_nil_r|]. split; [done|].
      intros _. split; [done|]. unfold Ui.setActive.
      change (Ui.prospect_at (Ui.set_activeIndex next s) next)
        with (Ui.prospect_at s next).
      by rewrite Hat.
Qed.

Lemma nextBtn_cursor_witness :
  Ui.activeIndex (Buttons.nextBtn_onclick play_env play_state)
  = Z.min (Ui.activeIndex play_state + 1) (Ui.length_prospects play_state - 1).
Proof.
  destruct (nextBtn_cursor play_env play_state) as [H _];
    [done|by vm_compute|exact H].
Defined.

(** ** From the parser to the header: selecting a parsed prospect *)

Module ParsedSelect.
Import Str StrFacts.








End ParsedSelect.



(** ** The follow-up request *)


